(** * EasyMoney: an RSS feed forwarded to a Telegram channel

    A shallow embedding of [main.py]: the cursor store
    ([get_last_entry_id], [save_last_entry_id]), the text helpers
    ([is_valid_url], [truncate_text], [extract_image_url]), one polling
    cycle ([process_and_send_entries]) and one turn of the scheduler loop
    of [main].

    Python values are modelled as the script uses them:
    - a [str] is the list of its Unicode code points, so [len] is
      [length] and a slice [s[:n]] is [firstn n s];
    - a feed entry is a record of optional fields (feedparser's
      duck-typed dictionary: a missing key is [None] here);
    - the file [last_entry_id.txt], the Bot API calls, the log and the
      calls of [time.sleep] live in an explicit [World], threaded through
      a small state-and-exception monad.

    The loading of the settings is outside the model: a run starts
    from a world in which the cursor file exists (created empty by
    [init_bot]) or is missing.  Inside a polling cycle the file system
    is taken to be reliable: reading and writing fail only as Python's
    text layer makes them fail (a missing file, a string that cannot be
    encoded).  The start-up [init_bot] and the cursor read
    [get_last_entry_id_given] are also given for a file system that
    fails, the exception it raises being a parameter. *)

From Stdlib Require Import String Ascii NArith ZArith Arith Bool Lia List.
Import ListNotations.

(** ** Python strings *)

Module PyStr.

(** A character is a code point, a [str] a sequence of them. *)
Definition char := N.
Definition str := list char.

(** The code points of an ASCII literal. *)
Definition lit (s : string) : str :=
  map N_of_ascii (list_ascii_of_string s).

Definition str_eqb (a b : str) : bool :=
  if list_eq_dec N.eq_dec a b then true else false.

(** [bool(s)]: a string is truthy when it is not empty. *)
Definition nonempty (s : str) : bool :=
  match s with [] => false | _ :: _ => true end.

(** [str.isspace] on one character (the table of CPython's
    [_PyUnicode_IsWhitespace]). *)
Definition isspace (c : char) : bool :=
  ((9 <=? c) && (c <=? 13) || (28 <=? c) && (c <=? 32)
   || (c =? 133) || (c =? 160) || (c =? 5760)
   || (8192 <=? c) && (c <=? 8202)
   || (c =? 8232) || (c =? 8233) || (c =? 8239) || (c =? 8287)
   || (c =? 12288))%N.

(** [s.lstrip(chars)] for the characters satisfying [p]. *)
Fixpoint lstrip_of (p : char -> bool) (s : str) : str :=
  match s with
  | [] => []
  | c :: s' => if p c then lstrip_of p s' else s
  end.

Definition rstrip_of (p : char -> bool) (s : str) : str :=
  rev (lstrip_of p (rev s)).

(** [s.strip()]: leading and trailing whitespace removed. *)
Definition strip (s : str) : str := lstrip_of isspace (rstrip_of isspace s).

(** [s.startswith(prefix)]. *)
Fixpoint startswith (prefix s : str) : bool :=
  match prefix, s with
  | [], _ => true
  | _ :: _, [] => false
  | a :: prefix', b :: s' => (a =? b)%N && startswith prefix' s'
  end.

(** [sub in s]. *)
Fixpoint contains (sub s : str) : bool :=
  startswith sub s ||
  match s with
  | [] => false
  | _ :: s' => contains sub s'
  end.

(** [s.find(c)] for a single character: the first index, if any. *)
Fixpoint find_char (c : char) (s : str) : option nat :=
  match s with
  | [] => None
  | d :: s' => if (d =? c)%N then Some 0
               else option_map S (find_char c s')
  end.

Definition isascii_upper (c : char) : bool := ((65 <=? c) && (c <=? 90))%N.
Definition isascii_lower (c : char) : bool := ((97 <=? c) && (c <=? 122))%N.
Definition isascii_alpha (c : char) : bool := isascii_upper c || isascii_lower c.
Definition isascii_digit (c : char) : bool := ((48 <=? c) && (c <=? 57))%N.
Definition isascii (c : char) : bool := (c <? 128)%N.

(** [s.lower()].  The ASCII letters are exact, and so are the only two
    other characters whose lower-case form holds an ASCII letter
    (U+0130 and the Kelvin sign U+212A).  Every other cased letter has
    a non-ASCII lower-case form and is left as it is: the script only
    searches the result for ASCII keywords, which cannot tell. *)
Definition lower_char (c : char) : str :=
  if isascii_upper c then [(c + 32)%N]
  else if (c =? 304)%N then [105; 775]%N
  else if (c =? 8490)%N then [107%N]
  else [c].

Definition lower (s : str) : str := flat_map lower_char s.

(** [html.escape(s)] with its default [quote=True]. *)
Definition escape_char (c : char) : str :=
  if (c =? 38)%N then lit "&amp;"
  else if (c =? 60)%N then lit "&lt;"
  else if (c =? 62)%N then lit "&gt;"
  else if (c =? 34)%N then lit "&quot;"
  else if (c =? 39)%N then lit "&#x27;"
  else [c].

Definition html_escape (s : str) : str := flat_map escape_char s.

(** [s.rsplit(' ', 1)[0]]: what stands before the last space, or the
    whole string when it has no space.  [before_last_space] is [None]
    in the second case. *)
Fixpoint before_last_space (s : str) : option str :=
  match s with
  | [] => None
  | c :: s' =>
      match before_last_space s' with
      | Some p => Some (c :: p)
      | None => if (c =? 32)%N then Some [] else None
      end
  end.

Definition rsplit_space_head (s : str) : str :=
  match before_last_space s with
  | Some p => p
  | None => s
  end.

(** A lone surrogate cannot be encoded in UTF-8. *)
Definition is_surrogate (c : char) : bool :=
  ((55296 <=? c) && (c <=? 57343))%N.

Definition utf8_encodable (s : str) : bool :=
  forallb (fun c => negb (is_surrogate c)) s.

(** Text mode on input ([newline=None]): the line ends "\r\n" and "\r"
    are handed to the caller as "\n". *)
Fixpoint universal_newlines (s : str) : str :=
  match s with
  | [] => []
  | c :: s' =>
      if (c =? 13)%N then
        match s' with
        | d :: s'' => if (d =? 10)%N then 10%N :: universal_newlines s''
                      else 10%N :: universal_newlines s'
        | [] => [10%N]
        end
      else c :: universal_newlines s'
  end.

End PyStr.

Import PyStr.

(** ** The run-time environment

    What the script takes from outside: the settings read from [.env],
    the answers of the Bot API, and two validations that
    [urllib.parse.urlsplit] delegates to other library modules
    ([ipaddress] for a bracketed host, [unicodedata] for a host that is
    not ASCII).  Nothing below depends on how these answer. *)

Inductive SendResult := SendOk | SendTelegramError | SendOtherError.

(** The two Bot API calls of the script, both with [parse_mode='HTML'];
    [send_message] also with [disable_web_page_preview=False]. *)
Inductive BotCall :=
| send_photo (chat_id : Z) (photo caption : str)
| send_message (chat_id : Z) (text : str).

Record Env := {
  CHANNEL_ID : Z;
  CHECK_INTERVAL : nat;
  POST_COOLDOWN : nat;
  (** the answer of the Bot API to the [n]-th call of the run *)
  telegram : nat -> BotCall -> SendResult;
  (** [_check_bracketed_netloc]: [false] when it raises [ValueError] *)
  check_bracketed_netloc : str -> bool;
  (** [_checknetloc] on a host that is not ASCII: [false] when it raises *)
  checknetloc : str -> bool
}.

Definition MAX_RETRIES : nat := 3.

(** ** Feed entries *)

Record Media := { m_url : option str }.

Record LinkData := { l_type : option str; l_href : option str }.

Record Entry := {
  e_id : option str;
  e_link : option str;
  e_title : option str;
  (** [None] also stands for a [summary] that is present and [None] *)
  e_summary : option str;
  e_media_content : option (list Media);
  e_links : option (list LinkData)
}.

(** ** URL validation

    [urlparse] is [urlsplit] followed by the split of the parameters off
    the path, which leaves the scheme and the network location as they
    are.  [urlsplit] follows [urllib/parse.py] of CPython 3.12: leading
    C0 controls and spaces are stripped, tabs and line ends are removed,
    a scheme starts with an ASCII letter, the network location runs from
    "//" to the first of "/", "?" and "#". *)

Module Urllib.

Definition c0_control_or_space (c : char) : bool := (c <=? 32)%N.

Definition unsafe_byte (c : char) : bool :=
  ((c =? 9) || (c =? 13) || (c =? 10))%N.

Definition scheme_char (c : char) : bool :=
  isascii_alpha c || isascii_digit c
  || ((c =? 43) || (c =? 45) || (c =? 46))%N.

Definition netloc_delim (c : char) : bool :=
  ((c =? 47) || (c =? 63) || (c =? 35))%N.

Fixpoint take_until (p : char -> bool) (s : str) : str :=
  match s with
  | [] => []
  | c :: s' => if p c then [] else c :: take_until p s'
  end.

Definition has (c : char) (s : str) : bool := existsb (N.eqb c) s.

(** The scheme of [url] and what follows it. *)
Definition split_scheme (url : str) : str * str :=
  match find_char 58%N url, url with
  | Some i, c0 :: _ =>
      if (0 <? i) && isascii_alpha c0 && forallb scheme_char (firstn i url)
      then (lower (firstn i url), skipn (S i) url)
      else ([], url)
  | _, _ => ([], url)
  end.

(** [urlsplit(url)], as far as [is_valid_url] looks at it: the scheme
    and the network location; [None] when [ValueError] is raised. *)
Definition urlsplit (env : Env) (url : str) : option (str * str) :=
  let url := lstrip_of c0_control_or_space url in
  let url := filter (fun c => negb (unsafe_byte c)) url in
  let '(scheme, url) := split_scheme url in
  if startswith (lit "//") url then
    let netloc := take_until netloc_delim (skipn 2 url) in
    if xorb (has 91%N netloc) (has 93%N netloc) then None
    else if has 91%N netloc && negb (check_bracketed_netloc env netloc)
    then None
    else if nonempty netloc && negb (forallb isascii netloc)
            && negb (checknetloc env netloc)
    then None
    else Some (scheme, netloc)
  else Some (scheme, []).

End Urllib.

Definition is_valid_url (env : Env) (url : str) : bool :=
  if negb (nonempty url) then false
  else
    match Urllib.urlsplit env url with
    | Some (scheme, netloc) => nonempty scheme && nonempty netloc
    | None => false
    end.

(** ** Text helpers *)

Definition ellipsis : str := lit "...".

Definition truncate_text (text : str) (max_len : nat) : str :=
  if length text <=? max_len then text
  else
    let truncated := rsplit_space_head (firstn max_len text) in
    if nonempty truncated then truncated ++ ellipsis
    else firstn max_len text ++ ellipsis.

Definition image_keywords : list str :=
  [lit "image"; lit "img"; lit "photo"; lit "picture"].

(** The loop over [entry.media_content]. *)
Fixpoint scan_media (env : Env) (media_content : list Media) : option str :=
  match media_content with
  | [] => None
  | media :: rest =>
      match m_url media with
      | Some url => if is_valid_url env url then Some url
                    else scan_media env rest
      | None => scan_media env rest
      end
  end.

(** The loop over [entry.links]. *)
Fixpoint scan_links (env : Env) (links : list LinkData) : option str :=
  match links with
  | [] => None
  | link_data :: rest =>
      let link_type := match l_type link_data with
                       | Some t => t
                       | None => []
                       end in
      match l_href link_data with
      | Some href =>
          if nonempty href && is_valid_url env href then
            if startswith (lit "image") link_type then Some href
            else if existsb (fun keyword => contains keyword (lower href))
                            image_keywords
            then Some href
            else scan_links env rest
          else scan_links env rest
      | None => scan_links env rest
      end
  end.

Definition extract_image_url (env : Env) (entry : Entry) : option str :=
  match
    match e_media_content entry with
    | Some media_content => scan_media env media_content
    | None => None
    end
  with
  | Some url => Some url
  | None =>
      match e_links entry with
      | Some links => scan_links env links
      | None => None
      end
  end.

(** "Читать далее: " *)
Definition read_more : str :=
  [1063; 1080; 1090; 1072; 1090; 1100; 32;
   1076; 1072; 1083; 1077; 1077; 58; 32]%N.

(** The f-string of the message: the bold title, the summary cut to
    3500 characters, the label and the link. *)
Definition format_message (title summary link : str) : str :=
  lit "<b>" ++ title ++ lit "</b>" ++ [10; 10]%N
  ++ truncate_text summary 3500 ++ [10; 10]%N ++ read_more ++ link.

(** ** The world of a run *)

Inductive Level := INFO | WARNING | ERROR.

(** The log records of the script, by their format string. *)
Inductive Message :=
| PhotoPosted (title : str)
| TextPosted (title : str)
| EntryProcessed (title entry_id : str)
| TelegramSendFailed (attempt : nat)
| GeneralSendFailed (attempt : nat)
| AllAttemptsFailed
| ReadFailed
| WriteEncodingFailed
| WriteFailed
| FeedParseFailed
| Published (new_count : nat)
| NothingNew
| Waiting (seconds : nat)
| MainLoopFailed
| Restarting (seconds : nat).

Inductive Event :=
| Log (level : Level) (message : Message)
| Sleep (seconds : nat)
| Call (call : BotCall).

Record World := {
  (** the text of [last_entry_id.txt]; [None] when the file is missing *)
  last_entry_file : option str;
  (** how many Bot API calls were made so far *)
  calls : nat;
  (** what happened so far, oldest first *)
  trace : list Event
}.

Definition set_file (content : option str) (w : World) : World :=
  {| last_entry_file := content; calls := calls w; trace := trace w |}.

Definition record (ev : Event) (w : World) : World :=
  {| last_entry_file := last_entry_file w; calls := calls w;
     trace := trace w ++ [ev] |}.

Inductive Exn :=
| AttributeError
| TelegramError
| UnicodeEncodeError
| FileNotFoundError
| OtherException.

Inductive Result (A : Type) :=
| Ok (a : A)
| Raised (e : Exn).

Arguments Ok {A} a.
Arguments Raised {A} e.

(** A computation reads and changes the world, and returns or raises. *)
Definition M (A : Type) : Type := World -> Result A * World.

Definition ret {A} (a : A) : M A := fun w => (Ok a, w).

Definition raise {A} (e : Exn) : M A := fun w => (Raised e, w).

Definition bind {A B} (m : M A) (k : A -> M B) : M B :=
  fun w =>
    match m w with
    | (Ok a, w') => k a w'
    | (Raised e, w') => (Raised e, w')
    end.

Definition try_except {A} (m : M A) (handler : Exn -> M A) : M A :=
  fun w =>
    match m w with
    | (Ok a, w') => (Ok a, w')
    | (Raised e, w') => handler e w'
    end.

Declare Scope py_scope.
Delimit Scope py_scope with py.
Notation "x <- m ;; k" := (bind m (fun x => k))
  (at level 61, m at next level, right associativity) : py_scope.
Notation "m ;; k" := (bind m (fun _ => k))
  (at level 61, right associativity) : py_scope.
Open Scope py_scope.

Definition logging (level : Level) (message : Message) : M unit :=
  fun w => (Ok tt, record (Log level message) w).

Definition time_sleep (seconds : nat) : M unit :=
  fun w => (Ok tt, record (Sleep seconds) w).

(** [entry.name] on a feed entry: a missing key is an [AttributeError]. *)
Definition getattr {A} (field : option A) : M A :=
  match field with
  | Some v => ret v
  | None => raise AttributeError
  end.

(** A call of [bot.send_photo] or [bot.send_message]. *)
Definition bot_call (env : Env) (call : BotCall) : M unit :=
  fun w =>
    let w' := {| last_entry_file := last_entry_file w;
                 calls := S (calls w);
                 trace := trace w ++ [Call call] |} in
    match telegram env (calls w) call with
    | SendOk => (Ok tt, w')
    | SendTelegramError => (Raised TelegramError, w')
    | SendOtherError => (Raised OtherException, w')
    end.

(** ** The cursor store *)

(** [LAST_ENTRY_FILE.read_text(encoding='utf-8')]. *)
Definition read_text : M str :=
  fun w =>
    match last_entry_file w with
    | Some raw => (Ok (universal_newlines raw), w)
    | None => (Raised FileNotFoundError, w)
    end.

(** [LAST_ENTRY_FILE.write_text(data, encoding='utf-8')]: the file is
    opened for writing, which empties it, and then the text is encoded. *)
Definition write_text (data : str) : M unit :=
  fun w =>
    if utf8_encodable data then (Ok tt, set_file (Some data) w)
    else (Raised UnicodeEncodeError, set_file (Some []) w).

Definition get_last_entry_id : M (option str) :=
  try_except
    (text <- read_text ;;
     let content := strip text in
     ret (if nonempty content then Some content else None))
    (fun e =>
       match e with
       | FileNotFoundError => ret None
       | _ => logging ERROR ReadFailed ;; ret None
       end).

Definition save_last_entry_id (entry_id : str) : M unit :=
  try_except
    (write_text entry_id)
    (fun e =>
       match e with
       | UnicodeEncodeError => logging ERROR WriteEncodingFailed
       | _ => logging ERROR WriteFailed
       end).

(** ** One polling cycle *)

(** What an [except] clause of the retry loop does. *)
Definition on_failure (warning : Message) (send_attempt : nat) : M unit :=
  logging WARNING warning ;;
  (if send_attempt =? MAX_RETRIES - 1
   then logging ERROR AllAttemptsFailed else ret tt) ;;
  time_sleep 2.

(** The loop [for send_attempt in range(MAX_RETRIES)] over the attempts
    still to make; it returns [sent] and [new_entries_sent]. *)
Fixpoint send_attempts (env : Env) (attempts : list nat)
    (entry_id title message : str) (image_url : option str)
    (new_entries_sent : nat) : M (bool * nat) :=
  match attempts with
  | [] => ret (false, new_entries_sent)
  | send_attempt :: later =>
      sent <- try_except
        (match image_url with
         | Some (c :: url) =>
             bot_call env (send_photo (CHANNEL_ID env) (c :: url)
                             (truncate_text message 1024)) ;;
             logging INFO (PhotoPosted title)
         | _ =>
             bot_call env (send_message (CHANNEL_ID env) message) ;;
             logging INFO (TextPosted title)
         end ;;
         save_last_entry_id entry_id ;;
         logging INFO (EntryProcessed title entry_id) ;;
         ret true)
        (fun e =>
           match e with
           | TelegramError =>
               on_failure (TelegramSendFailed (send_attempt + 1)) send_attempt
           | _ =>
               on_failure (GeneralSendFailed (send_attempt + 1)) send_attempt
           end ;;
           ret false) ;;
      if sent : bool then ret (true, S new_entries_sent)
      else send_attempts env later entry_id title message image_url
             new_entries_sent
  end.

(** [last_id and entry_id == last_id]. *)
Definition seen (last_id : option str) (entry_id : str) : bool :=
  match last_id with
  | Some l => nonempty l && str_eqb entry_id l
  | None => false
  end.

(** [entry.get('id', entry.link)]: the default is evaluated first. *)
Definition get_id (entry : Entry) : M str :=
  link <- getattr (e_link entry) ;;
  ret (match e_id entry with
       | Some i => i
       | None => link
       end).

(** The loop [for entry in entries]. *)
Fixpoint for_entries (env : Env) (last_id : option str)
    (entries : list Entry) (new_entries_sent : nat) : M nat :=
  match entries with
  | [] => ret new_entries_sent
  | entry :: rest =>
      entry_id <- get_id entry ;;
      if seen last_id entry_id then ret new_entries_sent
      else
        title <- getattr (e_title entry) ;;
        let title := html_escape title in
        link <- getattr (e_link entry) ;;
        let summary := html_escape (match e_summary entry with
                                    | Some s => s
                                    | None => []
                                    end) in
        let message := format_message title summary link in
        let image_url := extract_image_url env entry in
        r <- send_attempts env (seq 0 MAX_RETRIES) entry_id title message
               image_url new_entries_sent ;;
        (if fst r then time_sleep (POST_COOLDOWN env) else ret tt) ;;
        for_entries env last_id rest (snd r)
  end.

Definition process_and_send_entries (env : Env) (entries : list Entry)
  : M nat :=
  last_id <- get_last_entry_id ;;
  for_entries env last_id entries 0.

(** ** The scheduler loop *)

Record Feed := { bozo : bool; entries : list Entry }.

(** [feedparser.parse(RSS_FEED_URL)]: the feed it returns, or the
    exception it raises, is given from outside. *)
Definition feedparser_parse (parsed : Result Feed) : M Feed :=
  fun w => (parsed, w).

(** The body of [while True], given what [feedparser.parse] did. *)
Definition main_iteration (env : Env) (parsed : Result Feed) : M unit :=
  try_except
    (feed <- feedparser_parse parsed ;;
     (if bozo feed then logging ERROR FeedParseFailed
      else
        new_count <- process_and_send_entries env (entries feed) ;;
        if 0 <? new_count then logging INFO (Published new_count)
        else logging INFO NothingNew) ;;
     logging INFO (Waiting (CHECK_INTERVAL env)) ;;
     time_sleep (CHECK_INTERVAL env))
    (fun _ =>
       logging ERROR MainLoopFailed ;;
       logging INFO (Restarting 60) ;;
       time_sleep 60).

(** As many turns of the loop as there are feed downloads. *)
Fixpoint main_loop (env : Env) (downloads : list (Result Feed)) : M unit :=
  match downloads with
  | [] => ret tt
  | parsed :: later => main_iteration env parsed ;; main_loop env later
  end.

(** ** Notions used to state the properties *)

(** The Bot API call the retry loop makes for a message and an image. *)
Definition the_call (env : Env) (message : str) (image_url : option str)
  : BotCall :=
  match image_url with
  | Some (c :: url) =>
      send_photo (CHANNEL_ID env) (c :: url) (truncate_text message 1024)
  | _ => send_message (CHANNEL_ID env) message
  end.

Definition is_photo (call : BotCall) : bool :=
  match call with
  | send_photo _ _ _ => true
  | send_message _ _ => false
  end.

(** The Bot API calls among some events, in order. *)
Definition bot_calls (events : list Event) : list BotCall :=
  flat_map (fun ev => match ev with Call c => [c] | _ => [] end) events.

(** The sleeps among some events, in order. *)
Definition sleeps (events : list Event) : list nat :=
  flat_map (fun ev => match ev with Sleep n => [n] | _ => [] end) events.

(** The text of the cursor file after [save_last_entry_id entry_id]. *)
Definition stored (entry_id : str) : str :=
  if utf8_encodable entry_id then entry_id else [].

(** The cursor that the next cycle reads from a world. *)
Definition cursor (w : World) : option str :=
  match fst (get_last_entry_id w) with
  | Ok last_id => last_id
  | Raised _ => None
  end.

(** The identifier of an entry whose link is [link]. *)
Definition id_of (entry : Entry) (link : str) : str :=
  match e_id entry with
  | Some i => i
  | None => link
  end.

(** The world after an attempt that called the Bot API and failed. *)
Definition after_failure (env : Env) (call : BotCall) (send_attempt : nat)
    (w : World) : World :=
  {| last_entry_file := last_entry_file w;
     calls := S (calls w);
     trace := trace w ++
       [Call call;
        Log WARNING (match telegram env (calls w) call with
                     | SendTelegramError =>
                         TelegramSendFailed (send_attempt + 1)
                     | _ => GeneralSendFailed (send_attempt + 1)
                     end)]
       ++ (if send_attempt =? MAX_RETRIES - 1
           then [Log ERROR AllAttemptsFailed] else [])
       ++ [Sleep 2] |}.

(** The message the cycle builds for an entry with these fields. *)
Definition message_of (title link : str) (summary : option str) : str :=
  format_message (html_escape title)
    (html_escape (match summary with Some s => s | None => [] end)) link.

(** The Bot API call the cycle makes for an entry with this title and
    this link. *)
Definition call_of (env : Env) (entry : Entry) (title link : str) : BotCall :=
  the_call env (message_of title link (e_summary entry))
    (extract_image_url env entry).

(** An entry that the walk passes and tries to deliver: it has a link
    and a title, and its identifier is not the cursor. *)
Definition unseen (last_id : option str) (entry : Entry) : Prop :=
  exists link title,
    e_link entry = Some link /\ e_title entry = Some title /\
    seen last_id (id_of entry link) = false.

(** The identifier and the Bot API call of an entry that has a link and
    a title. *)
Definition link_of (entry : Entry) : str :=
  match e_link entry with Some link => link | None => [] end.

Definition title_of (entry : Entry) : str :=
  match e_title entry with Some title => title | None => [] end.

Definition entry_id_of (entry : Entry) : str := id_of entry (link_of entry).

Definition entry_call (env : Env) (entry : Entry) : BotCall :=
  call_of env entry (title_of entry) (link_of entry).

(** What the log and the clock show for a failed attempt. *)
Definition failure_events (env : Env) (call : BotCall) (nth_call : nat)
    (send_attempt : nat) : list Event :=
  [Call call;
   Log WARNING (match telegram env nth_call call with
                | SendTelegramError => TelegramSendFailed (send_attempt + 1)
                | _ => GeneralSendFailed (send_attempt + 1)
                end)]
  ++ (if send_attempt =? MAX_RETRIES - 1
      then [Log ERROR AllAttemptsFailed] else [])
  ++ [Sleep 2].

(** What the log shows for a successful attempt. *)
Definition success_events (call : BotCall) (title entry_id : str)
  : list Event :=
  [Call call;
   Log INFO (if is_photo call then PhotoPosted title else TextPosted title)]
  ++ (if utf8_encodable entry_id then []
      else [Log ERROR WriteEncodingFailed])
  ++ [Log INFO (EntryProcessed title entry_id)].

(** A link of [entry.links] that [extract_image_url] accepts. *)
Definition image_link (env : Env) (link_data : LinkData) : bool :=
  match l_href link_data with
  | Some href =>
      nonempty href && is_valid_url env href
      && (startswith (lit "image")
            (match l_type link_data with Some t => t | None => [] end)
          || existsb (fun keyword => contains keyword (lower href))
               image_keywords)
  | None => false
  end.

(** A media reference that [extract_image_url] accepts. *)
Definition image_media (env : Env) (media : Media) : bool :=
  match m_url media with
  | Some url => is_valid_url env url
  | None => false
  end.

(** *** The specification's wording, where it differs from the script *)

Module Claimed.

(** Identifier derivation: the explicit id when present and non-empty,
    else the link. *)
Definition entry_id (entry : Entry) (link : str) : str :=
  match e_id entry with
  | Some (c :: i) => c :: i
  | _ => link
  end.

(** Step 2 of the image extraction: the first valid-URL link whose
    declared type begins with "image". *)
Fixpoint typed_image_link (env : Env) (links : list LinkData)
  : option str :=
  match links with
  | [] => None
  | link_data :: rest =>
      match l_href link_data with
      | Some href =>
          if is_valid_url env href
             && startswith (lit "image")
                  (match l_type link_data with Some t => t | None => [] end)
          then Some href
          else typed_image_link env rest
      | None => typed_image_link env rest
      end
  end.

(** Step 3: the first valid-URL link whose URL holds a keyword. *)
Fixpoint keyword_image_link (env : Env) (links : list LinkData)
  : option str :=
  match links with
  | [] => None
  | link_data :: rest =>
      match l_href link_data with
      | Some href =>
          if is_valid_url env href
             && existsb (fun keyword => contains keyword (lower href))
                  image_keywords
          then Some href
          else keyword_image_link env rest
      | None => keyword_image_link env rest
      end
  end.

(** The four steps, first match wins. *)
Definition extract_image_url (env : Env) (entry : Entry) : option str :=
  match
    match e_media_content entry with
    | Some media_content => scan_media env media_content
    | None => None
    end
  with
  | Some url => Some url
  | None =>
      match e_links entry with
      | Some links =>
          match typed_image_link env links with
          | Some href => Some href
          | None => keyword_image_link env links
          end
      | None => None
      end
  end.

(** Retry policy: a warning for each failure, the 2-second sleep
    unless it was the last attempt, then the error. *)
Definition failure_events (env : Env) (call : BotCall) (nth_call : nat)
    (send_attempt : nat) : list Event :=
  [Call call;
   Log WARNING (match telegram env nth_call call with
                | SendTelegramError => TelegramSendFailed (send_attempt + 1)
                | _ => GeneralSendFailed (send_attempt + 1)
                end)]
  ++ (if send_attempt =? MAX_RETRIES - 1
      then [Log ERROR AllAttemptsFailed] else [Sleep 2]).

End Claimed.

(** ** Sample runs *)

Module Sample.

Definition env_with (api : nat -> BotCall -> SendResult) : Env :=
  {| CHANNEL_ID := (-1001234567890)%Z;
     CHECK_INTERVAL := 300;
     POST_COOLDOWN := 60;
     telegram := api;
     check_bracketed_netloc := fun _ => true;
     checknetloc := fun _ => true |}.

(** The Bot API accepts every call. *)
Definition env_up : Env := env_with (fun _ _ => SendOk).

(** The Bot API refuses every call. *)
Definition env_down : Env := env_with (fun _ _ => SendTelegramError).

(** The Bot API refuses the first three calls of the run. *)
Definition env_late : Env :=
  env_with (fun n _ => if n <? 3 then SendOtherError else SendOk).

Definition post (id title : string) : Entry :=
  {| e_id := Some (lit id);
     e_link := Some (lit "https://example.org/posts/" ++ lit id);
     e_title := Some (lit title);
     e_summary := None;
     e_media_content := None;
     e_links := None |}.

(** The feed of the end-to-end scenario, newest first. *)
Definition feed_cba : list Entry := [post "3" "C"; post "2" "B"; post "1" "A"].

(** A fresh start: [init_bot] has created the cursor file, empty. *)
Definition fresh : World :=
  {| last_entry_file := Some []; calls := 0; trace := [] |}.

Definition with_cursor (id : string) : World :=
  {| last_entry_file := Some (lit id); calls := 0; trace := [] |}.

(** An entry with an empty [id]. *)
Definition post_empty_id : Entry :=
  {| e_id := Some [];
     e_link := Some (lit "https://example.org/posts/7");
     e_title := Some (lit "G");
     e_summary := None;
     e_media_content := None;
     e_links := None |}.

(** An entry with an [id] and no [link]. *)
Definition post_no_link : Entry :=
  {| e_id := Some (lit "9");
     e_link := None;
     e_title := Some (lit "I");
     e_summary := None;
     e_media_content := None;
     e_links := None |}.

(** A summary of 3500 letters: as long as [truncate_text] lets pass. *)
Definition post_long : Entry :=
  {| e_id := Some (lit "4");
     e_link := Some (lit "https://example.org/posts/4");
     e_title := Some (lit "D");
     e_summary := Some (repeat 97%N 3500);
     e_media_content := None;
     e_links := None |}.

Definition thumb : LinkData :=
  {| l_type := Some (lit "text/html");
     l_href := Some (lit "https://example.org/img/4") |}.

Definition cover : LinkData :=
  {| l_type := Some (lit "image/png");
     l_href := Some (lit "https://example.org/cover/4") |}.

Definition video : Media :=
  {| m_url := Some (lit "https://cdn.example.org/v/4.mp4") |}.

(** A keyword link listed before a link of type image. *)
Definition post_two_links : Entry :=
  {| e_id := Some (lit "4");
     e_link := Some (lit "https://example.org/posts/4");
     e_title := Some (lit "D");
     e_summary := None;
     e_media_content := None;
     e_links := Some [thumb; cover] |}.

(** A media reference and a link of type image. *)
Definition post_media : Entry :=
  {| e_id := Some (lit "5");
     e_link := Some (lit "https://example.org/posts/5");
     e_title := Some (lit "E");
     e_summary := None;
     e_media_content := Some [video];
     e_links := Some [cover] |}.

(** Image candidates without a scheme or without a host. *)
Definition post_bad_images : Entry :=
  {| e_id := Some (lit "6");
     e_link := Some (lit "https://example.org/posts/6");
     e_title := Some (lit "F");
     e_summary := None;
     e_media_content := Some [{| m_url := Some (lit "/media/6.png") |};
                              {| m_url := Some [] |}];
     e_links := Some [{| l_type := Some (lit "image/png");
                         l_href := Some (lit "//cdn.example.org/6.png") |};
                      {| l_type := Some (lit "image/jpeg");
                         l_href := Some (lit "https:photo.jpg") |}] |}.

End Sample.

(** ** Start-up *)






(** ** The cursor read on a file system that may fail *)

(** [LAST_ENTRY_FILE.read_text(encoding='utf-8')], given what the file
    system does: the text of the file, or the exception it raises. *)
Definition read_text_given (read : Result str) : M str :=
  fun w =>
    match read with
    | Ok raw => (Ok (universal_newlines raw), w)
    | Raised e => (Raised e, w)
    end.

(** [get_last_entry_id()] over [read_text_given]. *)
Definition get_last_entry_id_given (read : Result str) : M (option str) :=
  try_except
    (text <- read_text_given read ;;
     let content := strip text in
     ret (if nonempty content then Some content else None))
    (fun e =>
       match e with
       | FileNotFoundError => ret None
       | _ => logging ERROR ReadFailed ;; ret None
       end).

(** What a reliable file system does for a read in a world. *)
Definition read_of (w : World) : Result str :=
  match last_entry_file w with
  | Some raw => Ok raw
  | None => Raised FileNotFoundError
  end.

(** ** The validity test as the specification words it *)

Module ClaimedUrl.

(** [netloc.rpartition('@')[2]] when there is an [@]. *)
Fixpoint after_last_at (netloc : str) : option str :=
  match netloc with
  | [] => None
  | c :: rest =>
      match after_last_at rest with
      | Some t => Some t
      | None => if (c =? 64)%N then Some rest else None
      end
  end.

(** What follows the first opening bracket, if there is one. *)
Fixpoint after_bracket (hostinfo : str) : option str :=
  match hostinfo with
  | [] => None
  | c :: rest => if (c =? 91)%N then Some rest else after_bracket rest
  end.

(** The host of a network location: user information and port left
    out, as [urllib]'s [hostname] finds it (lower-casing apart). *)
Definition host (netloc : str) : str :=
  let hostinfo := match after_last_at netloc with
                  | Some t => t
                  | None => netloc
                  end in
  match after_bracket hostinfo with
  | Some bracketed => Urllib.take_until (fun c => (c =? 93)%N) bracketed
  | None => Urllib.take_until (fun c => (c =? 58)%N) hostinfo
  end.

(** Valid: a non-empty scheme and a non-empty host. *)
Definition is_valid_url (env : Env) (url : str) : bool :=
  match Urllib.urlsplit env url with
  | Some (scheme, netloc) => nonempty scheme && nonempty (host netloc)
  | None => false
  end.

End ClaimedUrl.

(** An entry whose only image candidate has a port and no host. *)
Definition post_hostless : Entry :=
  {| e_id := Some (lit "8");
     e_link := Some (lit "https://example.org/posts/8");
     e_title := Some (lit "H");
     e_summary := None;
     e_media_content := Some [{| m_url := Some (lit "http://:8080/a.png") |}];
     e_links := None |}.

(** ** Further notions *)

(** The URL as [urlsplit] looks at it: stripped on the left, tabs and
    line ends removed. *)
Definition cleaned_url (url : str) : str :=
  filter (fun c => negb (Urllib.unsafe_byte c))
    (lstrip_of Urllib.c0_control_or_space url).

(** A character of a plain host: ASCII, printable, and none of the
    delimiters and brackets that [urlsplit] gives a meaning to. *)
Definition host_char (c : char) : bool :=
  ((32 <? c) && (c <? 128))%N
  && negb (Urllib.netloc_delim c)
  && negb ((c =? 91) || (c =? 93))%N.

(** Whether [urlsplit] lets a network location pass: brackets come in
    pairs, and the library's two validations do not raise. *)
Definition netloc_accepted (env : Env) (netloc : str) : bool :=
  if xorb (Urllib.has 91%N netloc) (Urllib.has 93%N netloc) then false
  else if Urllib.has 91%N netloc && negb (check_bracketed_netloc env netloc)
  then false
  else if nonempty netloc && negb (forallb isascii netloc)
          && negb (checknetloc env netloc)
  then false
  else true.

(** The log record that closes a successful delivery. *)
Definition is_processed (ev : Event) : bool :=
  match ev with
  | Log INFO (EntryProcessed _ _) => true
  | _ => false
  end.

Definition chat_of (call : BotCall) : Z :=
  match call with
  | send_photo chat_id _ _ => chat_id
  | send_message chat_id _ => chat_id
  end.

(** How many deliveries some events close. *)
Definition processed (events : list Event) : nat :=
  length (filter is_processed events).

(** The events of the delivery of one entry: [k] refused attempts, then,
    if the entry was sent, the accepted call and the cooldown. *)
Definition delivery_events (env : Env) (entry : Entry) (title link : str)
    (first_call k : nat) (sent : bool) : list Event :=
  flat_map (fun i => failure_events env (call_of env entry title link)
                       (first_call + i) i) (seq 0 k)
  ++ (if sent
      then success_events (call_of env entry title link)
             (html_escape title) (id_of entry link)
           ++ [Sleep (POST_COOLDOWN env)]
      else []).

(** Where the walk stops without an exception: at the end of the feed,
    or at an entry whose identifier is the cursor. *)
Definition stops_at (last_id : option str) (tail : list Entry) : Prop :=
  tail = [] \/
  exists entry after link,
    tail = entry :: after /\ e_link entry = Some link /\
    seen last_id (id_of entry link) = true.

(** The characters that [html.escape] replaces, the ampersand apart. *)
Definition markup_char (c : char) : bool :=
  ((c =? 60) || (c =? 62) || (c =? 34) || (c =? 39))%N.

(** The last event of a trace, if any. *)
Definition last_event (events : list Event) : option Event :=
  match rev events with
  | ev :: _ => Some ev
  | [] => None
  end.

(** The rhythm of some events: [true] for a Bot API call, [false] for a
    sleep, the log records left out. *)
Definition beats (events : list Event) : list bool :=
  flat_map (fun ev => match ev with
                      | Call _ => [true]
                      | Sleep _ => [false]
                      | Log _ _ => []
                      end) events.

(** One call and one sleep, [n] times over. *)
Fixpoint call_then_sleep (n : nat) : list bool :=
  match n with
  | 0 => []
  | S n' => true :: false :: call_then_sleep n'
  end.

(** The rhythm of some events with the durations: [None] for a Bot API
    call, [Some seconds] for a sleep, the log records left out. *)
Definition rhythm (events : list Event) : list (option nat) :=
  flat_map (fun ev => match ev with
                      | Call _ => [None]
                      | Sleep seconds => [Some seconds]
                      | Log _ _ => []
                      end) events.

(** Whether the Bot API accepts a call made as the [nth_call] of the
    run. *)
Definition accepts (env : Env) (nth_call : nat) (call : BotCall) : bool :=
  match telegram env nth_call call with
  | SendOk => true
  | _ => false
  end.

(** The rhythm that the calls of a cycle dictate: after each call one
    sleep, of [POST_COOLDOWN] seconds when the call was accepted and of
    2 seconds when it was refused. *)
Fixpoint paced (env : Env) (first : nat) (calls : list BotCall)
  : list (option nat) :=
  match calls with
  | [] => []
  | call :: later =>
      None :: Some (if accepts env first call then POST_COOLDOWN env else 2)
      :: paced env (S first) later
  end.


(** * Properties *)

(** ** Strings *)

Lemma str_eqb_eq (a b : str) : str_eqb a b = true <-> a = b.
Proof.
  unfold str_eqb. destruct (list_eq_dec N.eq_dec a b); split; congruence.
Qed.

Lemma str_eqb_refl (a : str) : str_eqb a a = true.
Proof. now apply str_eqb_eq. Qed.

Lemma str_eqb_neq (a b : str) : a <> b -> str_eqb a b = false.
Proof.
  intros H. destruct (str_eqb a b) eqn:E; [|reflexivity].
  now apply str_eqb_eq in E.
Qed.

Lemma before_last_space_None (s : str) :
  before_last_space s = None -> ~ In 32%N s.
Proof.
  induction s as [|c s IH]; simpl; [tauto|].
  destruct (before_last_space s); [discriminate|].
  destruct (N.eqb_spec c 32); [discriminate|].
  intros _ [Hc|Hin]; [congruence|]. now apply IH.
Qed.

Lemma before_last_space_Some (s p : str) :
  before_last_space s = Some p ->
  exists q, s = p ++ 32%N :: q /\ ~ In 32%N q.
Proof.
  revert p. induction s as [|c s IH]; simpl; intros p H; [discriminate|].
  destruct (before_last_space s) as [p0|] eqn:E.
  - injection H as <-. destruct (IH p0 eq_refl) as (q & -> & Hq).
    now exists q.
  - destruct (N.eqb_spec c 32) as [->|]; [|discriminate].
    injection H as <-. exists s. split; [reflexivity|].
    now apply before_last_space_None.
Qed.

Lemma lstrip_of_head (p : char -> bool) (s : str) :
  p (hd 0%N s) = false -> lstrip_of p s = s.
Proof. destruct s as [|c s]; simpl; [reflexivity|]. now intros ->. Qed.

Lemma lstrip_of_all (p : char -> bool) (s : str) :
  forallb p s = true -> lstrip_of p s = [].
Proof.
  induction s as [|c s IH]; simpl; [reflexivity|].
  intros H. apply andb_prop in H as [-> H]. now apply IH.
Qed.

Lemma hd_rev_last (s : str) : hd 0%N (rev s) = last s 0%N.
Proof.
  induction s as [|c s IH] using rev_ind; [reflexivity|].
  now rewrite rev_app_distr, last_last.
Qed.

Lemma strip_clean (s : str) :
  isspace (hd 0%N s) = false -> isspace (last s 0%N) = false -> strip s = s.
Proof.
  intros Hh Hl. unfold strip, rstrip_of.
  rewrite (lstrip_of_head isspace (rev s)), rev_involutive.
  - now apply lstrip_of_head.
  - now rewrite hd_rev_last.
Qed.

Lemma strip_blank (s : str) : forallb isspace s = true -> strip s = [].
Proof.
  intros H. unfold strip, rstrip_of.
  rewrite (lstrip_of_all isspace (rev s)); [reflexivity|].
  rewrite forallb_forall in *. intros c Hc. apply H.
  now apply in_rev.
Qed.

Lemma universal_newlines_plain (s : str) :
  ~ In 13%N s -> universal_newlines s = s.
Proof.
  induction s as [|c s IH]; [reflexivity|].
  intros H. cbn [universal_newlines].
  destruct (N.eqb_spec c 13) as [->|_].
  - exfalso. apply H. now left.
  - f_equal. apply IH. intros Hin. apply H. now right.
Qed.

Lemma universal_newlines_blank (s : str) :
  forallb isspace s = true -> forallb isspace (universal_newlines s) = true.
Proof.
  remember (length s) as n eqn:Hn. revert s Hn.
  induction n as [n IH] using lt_wf_ind. intros s Hn H.
  destruct s as [|c s]; [reflexivity|].
  cbn [universal_newlines]. simpl in H. apply andb_prop in H as [Hc H].
  destruct (N.eqb_spec c 13) as [->|_].
  - destruct s as [|d s]; [reflexivity|].
    simpl in H. apply andb_prop in H as [Hd H].
    destruct (N.eqb_spec d 10) as [->|_].
    + cbn [forallb]. apply andb_true_intro. split; [reflexivity|].
      apply (IH (length s)); [simpl in Hn; lia|reflexivity|exact H].
    + cbn [forallb]. apply andb_true_intro. split; [reflexivity|].
      apply (IH (length (d :: s))); [simpl in *; lia|reflexivity|].
      simpl. now rewrite Hd, H.
  - cbn [forallb]. rewrite Hc. simpl.
    apply (IH (length s)); [simpl in Hn; lia|reflexivity|exact H].
Qed.

(** ** The cursor store *)

Ltac run :=
  unfold process_and_send_entries, get_id, getattr, on_failure,
    save_last_entry_id, get_last_entry_id, write_text, read_text,
    bot_call, logging, time_sleep, feedparser_parse,
    bind, try_except, ret, raise, record, set_file;
  simpl.

Lemma save_last_entry_id_run (entry_id : str) (w : World) :
  save_last_entry_id entry_id w =
  (Ok tt,
   {| last_entry_file := Some (stored entry_id);
      calls := calls w;
      trace := trace w ++ (if utf8_encodable entry_id then []
                           else [Log ERROR WriteEncodingFailed]) |}).
Proof.
  run. unfold stored. destruct (utf8_encodable entry_id); simpl.
  - now rewrite app_nil_r.
  - reflexivity.
Qed.

Lemma get_last_entry_id_run (w : World) :
  get_last_entry_id w =
  (Ok (match last_entry_file w with
       | Some raw =>
           if nonempty (strip (universal_newlines raw))
           then Some (strip (universal_newlines raw)) else None
       | None => None
       end), w).
Proof. run. now destruct (last_entry_file w). Qed.

Lemma cursor_eq (w : World) :
  cursor w =
  match last_entry_file w with
  | Some raw =>
      if nonempty (strip (universal_newlines raw))
      then Some (strip (universal_newlines raw)) else None
  | None => None
  end.
Proof. unfold cursor. now rewrite get_last_entry_id_run. Qed.

(** A cursor read from the file is never the empty string. *)
Lemma cursor_nonempty (w : World) (l : str) :
  cursor w = Some l -> nonempty l = true.
Proof.
  rewrite cursor_eq. destruct (last_entry_file w) as [raw|]; [|discriminate].
  destruct (nonempty _) eqn:E; [|discriminate]. now intros [= <-].
Qed.

(** ** The retry loop *)

Lemma attempt_sent env a later entry_id title message image_url n w :
  telegram env (calls w) (the_call env message image_url) = SendOk ->
  send_attempts env (a :: later) entry_id title message image_url n w =
  (Ok (true, S n),
   {| last_entry_file := Some (stored entry_id);
      calls := S (calls w);
      trace := trace w ++
        success_events (the_call env message image_url) title entry_id |}).
Proof.
  intros H. cbn [send_attempts]. unfold success_events, stored.
  destruct image_url as [[|c url]|]; cbn [the_call is_photo] in *; run;
    rewrite H; simpl; destruct (utf8_encodable entry_id); simpl;
    rewrite <- !app_assoc; reflexivity.
Qed.

Lemma attempt_failed env a later entry_id title message image_url n w :
  telegram env (calls w) (the_call env message image_url) <> SendOk ->
  send_attempts env (a :: later) entry_id title message image_url n w =
  send_attempts env later entry_id title message image_url n
    (after_failure env (the_call env message image_url) a w).
Proof.
  intros H. cbn [send_attempts]. unfold after_failure.
  destruct image_url as [[|c url]|]; cbn [the_call] in *; run;
    destruct (telegram env (calls w) _); try congruence; simpl;
    destruct (a =? 2); simpl;
    rewrite <- !app_assoc; reflexivity.
Qed.

Lemma bot_calls_app (a b : list Event) :
  bot_calls (a ++ b) = bot_calls a ++ bot_calls b.
Proof. apply flat_map_app. Qed.

Lemma sleeps_app (a b : list Event) : sleeps (a ++ b) = sleeps a ++ sleeps b.
Proof. apply flat_map_app. Qed.

Lemma failure_events_calls env call k a :
  bot_calls (failure_events env call k a) = [call].
Proof. unfold failure_events. simpl. now destruct (a =? 2). Qed.

Lemma failure_events_sleeps env call k a :
  sleeps (failure_events env call k a) = [2].
Proof. unfold failure_events. simpl. now destruct (a =? 2). Qed.

Lemma success_events_calls call title entry_id :
  bot_calls (success_events call title entry_id) = [call].
Proof.
  unfold success_events. simpl. now destruct (utf8_encodable entry_id).
Qed.

Lemma success_events_sleeps call title entry_id :
  sleeps (success_events call title entry_id) = [].
Proof.
  unfold success_events. simpl. now destruct (utf8_encodable entry_id).
Qed.

Lemma flat_map_seq_shift {A} (f : nat -> list A) (k : nat) :
  flat_map f (seq 1 k) = flat_map (fun i => f (S i)) (seq 0 k).
Proof.
  rewrite <- seq_shift. induction (seq 0 k) as [|i l IH]; [reflexivity|].
  simpl. now rewrite IH.
Qed.

Lemma after_failure_calls env call a w :
  calls (after_failure env call a w) = S (calls w).
Proof. reflexivity. Qed.

Lemma after_failure_file env call a w :
  last_entry_file (after_failure env call a w) = last_entry_file w.
Proof. reflexivity. Qed.

Lemma after_failure_trace env call a w :
  trace (after_failure env call a w) =
  trace w ++ failure_events env call (calls w) a.
Proof. reflexivity. Qed.

(** The retry loop, whatever the Bot API answers: it returns, it makes
    at most one call per attempt, always the same call, and it writes the
    cursor exactly when it has sent. *)
Lemma send_attempts_run env attempts entry_id title message image_url n w :
  exists (sent : bool) w' events,
    send_attempts env attempts entry_id title message image_url n w =
    (Ok (sent, if sent then S n else n), w') /\
    trace w' = trace w ++ events /\
    Forall (eq (the_call env message image_url)) (bot_calls events) /\
    length (bot_calls events) <= length attempts /\
    calls w' = calls w + length (bot_calls events) /\
    last_entry_file w' =
      (if sent then Some (stored entry_id) else last_entry_file w) /\
    (sent = false -> length (bot_calls events) = length attempts).
Proof.
  revert w. induction attempts as [|a later IH]; intros w.
  - exists false, w, []. simpl. rewrite app_nil_r, Nat.add_0_r.
    repeat split; auto.
  - destruct (telegram env (calls w) (the_call env message image_url)) eqn:E.
    + exists true. eexists. eexists. rewrite (attempt_sent _ _ _ _ _ _ _ _ _ E).
      split; [reflexivity|]. cbn [trace calls last_entry_file].
      rewrite success_events_calls. simpl.
      repeat split; auto; try lia; try discriminate.
    + rewrite attempt_failed by congruence.
      destruct (IH (after_failure env (the_call env message image_url) a w))
        as (sent & w' & events & -> & Ht & Hc & Hl & Hn & Hf & Hs).
      exists sent, w',
        (failure_events env (the_call env message image_url) (calls w) a
         ++ events).
      rewrite Ht, after_failure_trace, bot_calls_app, failure_events_calls.
      rewrite Hn. simpl. rewrite <- app_assoc.
      repeat split; auto; try lia.
    + rewrite attempt_failed by congruence.
      destruct (IH (after_failure env (the_call env message image_url) a w))
        as (sent & w' & events & -> & Ht & Hc & Hl & Hn & Hf & Hs).
      exists sent, w',
        (failure_events env (the_call env message image_url) (calls w) a
         ++ events).
      rewrite Ht, after_failure_trace, bot_calls_app, failure_events_calls.
      rewrite Hn. simpl. rewrite <- app_assoc.
      repeat split; auto; try lia.
Qed.


(** ** The walk over the entries *)

Lemma for_entries_no_link env last_id entry rest n w :
  e_link entry = None ->
  for_entries env last_id (entry :: rest) n w = (Raised AttributeError, w).
Proof. intros H. cbn [for_entries]. run. now rewrite H. Qed.

Lemma for_entries_seen env last_id entry link rest n w :
  e_link entry = Some link ->
  seen last_id (id_of entry link) = true ->
  for_entries env last_id (entry :: rest) n w = (Ok n, w).
Proof.
  intros Hl Hs. cbn [for_entries].
  unfold get_id, getattr, bind. rewrite Hl. unfold ret at 1 2.
  fold (id_of entry link). now rewrite Hs.
Qed.

Lemma for_entries_deliver env last_id entry link title rest n w :
  e_link entry = Some link ->
  e_title entry = Some title ->
  seen last_id (id_of entry link) = false ->
  for_entries env last_id (entry :: rest) n w =
  match send_attempts env (seq 0 MAX_RETRIES) (id_of entry link)
          (html_escape title) (message_of title link (e_summary entry))
          (extract_image_url env entry) n w with
  | (Ok (sent, n'), w') =>
      for_entries env last_id rest n'
        (if sent then record (Sleep (POST_COOLDOWN env)) w' else w')
  | (Raised e, w') => (Raised e, w')
  end.
Proof.
  intros Hl Ht Hs. cbn [for_entries].
  unfold get_id, getattr, bind. rewrite Hl, Ht. unfold ret at 1 2 3.
  fold (id_of entry link). rewrite Hs. unfold ret at 1 2.
  fold (message_of title link (e_summary entry)).
  destruct (send_attempts _ _ _ _ _ _ _ _) as [[[sent n']|e] w'];
    [|reflexivity].
  now destruct sent.
Qed.

(** An entry sent at the first attempt. *)
Lemma for_entries_sent env last_id entry link title rest n w :
  e_link entry = Some link ->
  e_title entry = Some title ->
  seen last_id (id_of entry link) = false ->
  telegram env (calls w) (call_of env entry title link) = SendOk ->
  for_entries env last_id (entry :: rest) n w =
  for_entries env last_id rest (S n)
    {| last_entry_file := Some (stored (id_of entry link));
       calls := S (calls w);
       trace := trace w
         ++ success_events (call_of env entry title link)
              (html_escape title) (id_of entry link)
         ++ [Sleep (POST_COOLDOWN env)] |}.
Proof.
  intros Hl Ht Hs Hok.
  rewrite (for_entries_deliver env last_id entry link title _ _ _ Hl Ht Hs).
  unfold MAX_RETRIES. cbn [seq].
  rewrite attempt_sent by exact Hok.
  unfold record. cbn [last_entry_file calls trace].
  now rewrite <- app_assoc.
Qed.


(** The walk passes a run of unseen entries and goes on with what
    follows them, whatever the Bot API answers. *)
Lemma for_entries_app env last_id before n w :
  Forall (unseen last_id) before ->
  exists n' w',
    for_entries env last_id before n w = (Ok n', w') /\
    forall more,
      for_entries env last_id (before ++ more) n w =
      for_entries env last_id more n' w'.
Proof.
  intros H. revert n w.
  induction H as [|entry before (link & title & Hl & Ht & Hs) _ IH];
    intros n w.
  - exists n, w. split; [reflexivity|]. reflexivity.
  - destruct (send_attempts_run env (seq 0 MAX_RETRIES) (id_of entry link)
                (html_escape title) (message_of title link (e_summary entry))
                (extract_image_url env entry) n w)
      as (sent & w1 & events & Hrun & _).
    destruct (IH (if sent then S n else n)
                (if sent then record (Sleep (POST_COOLDOWN env)) w1 else w1))
      as (n' & w' & Hbefore & Hmore).
    exists n', w'. split.
    + rewrite (for_entries_deliver env last_id entry link title _ _ _ Hl Ht Hs), Hrun. exact Hbefore.
    + intros more. rewrite <- app_comm_cons.
      rewrite (for_entries_deliver env last_id entry link title _ _ _ Hl Ht Hs), Hrun. apply Hmore.
Qed.

(** The retry loop, whatever the Bot API answers: [k] refused attempts,
    each with its warning and its sleep, then either the accepted call
    or, after the last attempt, nothing more. *)
Lemma send_attempts_trace env a m entry_id title message image_url n w :
  let call := the_call env message image_url in
  exists k (sent : bool) w',
    send_attempts env (seq a m) entry_id title message image_url n w =
      (Ok (sent, if sent then S n else n), w') /\
    (forall i, i < k -> telegram env (calls w + i) call <> SendOk) /\
    (if sent then k < m /\ telegram env (calls w + k) call = SendOk
     else k = m) /\
    trace w' = trace w
      ++ flat_map (fun i => failure_events env call (calls w + i) (a + i))
           (seq 0 k)
      ++ (if sent then success_events call title entry_id else []) /\
    calls w' = calls w + k + (if sent then 1 else 0) /\
    last_entry_file w' =
      (if sent then Some (stored entry_id) else last_entry_file w).
Proof.
  intros call. revert a w. induction m as [|m IH]; intros a w.
  - exists 0, false, w. cbn. rewrite app_nil_r, !Nat.add_0_r.
    repeat split; auto. intros i Hi. lia.
  - cbn [seq].
    assert (telegram env (calls w) call = SendOk \/
            telegram env (calls w) call <> SendOk) as [E|E]
      by (destruct (telegram env (calls w) call);
          [left|right|right]; congruence).
    + exists 0, true. eexists. unfold call in E.
      rewrite (attempt_sent _ _ _ _ _ _ _ _ _ E). fold call.
      split; [reflexivity|]. cbn [trace calls last_entry_file seq flat_map].
      rewrite Nat.add_0_r. repeat split; auto; try lia.
    + destruct (IH (S a) (after_failure env call a w))
        as (k & sent & w' & Hrun & Hk & Hsent & Ht & Hc & Hf).
      exists (S k), sent, w'.
      unfold call. rewrite attempt_failed by exact E.
      fold call. split; [exact Hrun|].
      rewrite after_failure_calls in *.
      rewrite after_failure_trace in Ht. rewrite after_failure_file in Hf.
      split; [|split; [|split; [|split]]].
      * intros [|i] Hi; [now rewrite Nat.add_0_r|].
        rewrite <- Nat.add_succ_comm. apply Hk. lia.
      * destruct sent; [|lia]. destruct Hsent as [Hlt Hok]. split; [lia|].
        now rewrite <- Nat.add_succ_comm.
      * rewrite Ht. cbn [seq flat_map]. rewrite flat_map_seq_shift.
        rewrite !Nat.add_0_r, <- !app_assoc. do 2 f_equal.
        f_equal. apply flat_map_ext. intros i.
        now rewrite <- !Nat.add_succ_comm.
      * lia.
      * exact Hf.
Qed.

Lemma process_and_send_entries_eq env entries w :
  process_and_send_entries env entries w =
  for_entries env (cursor w) entries 0 w.
Proof.
  unfold process_and_send_entries, bind. rewrite get_last_entry_id_run.
  now rewrite cursor_eq.
Qed.

(** ** The claims about the retry loop and the scheduler *)

(** C4, as amended.  For every entry the retry loop
    [for send_attempt in range(MAX_RETRIES)] returns without raising and
    calls the Bot API at most 3 times.  Each of the [k] refused calls,
    whether refused by a Telegram error or by any other exception, is
    followed by a warning and by a 2-second sleep, after the last attempt
    as after the others ([k] refusals, [k] sleeps); after the third
    refusal the error is logged before that sleep and the entry is
    reported as not sent, with the cursor file as it was. *)
Theorem C4_retry_policy env entry_id title message image_url n w :
  let call := the_call env message image_url in
  exists k (sent : bool) w' events,
    send_attempts env (seq 0 MAX_RETRIES) entry_id title message image_url
      n w = (Ok (sent, if sent then S n else n), w') /\
    trace w' = trace w ++ events /\
    events =
      flat_map (fun i => failure_events env call (calls w + i) i) (seq 0 k)
      ++ (if sent then success_events call title entry_id else []) /\
    length (bot_calls events) <= MAX_RETRIES /\
    sleeps events = repeat 2 k /\
    (forall i, i < k -> telegram env (calls w + i) call <> SendOk) /\
    (sent = false <-> k = MAX_RETRIES) /\
    (sent = false -> last_entry_file w' = last_entry_file w).
Proof.
  intros call.
  destruct (send_attempts_trace env 0 MAX_RETRIES entry_id title message
              image_url n w)
    as (k & sent & w' & Hrun & Hk & Hsent & Ht & Hc & Hf).
  fold call in Hk, Hsent, Ht. cbn [Nat.add] in Ht.
  exists k, sent, w'. eexists.
  split; [exact Hrun|]. split; [exact Ht|]. split; [reflexivity|].
  assert (Hle : k <= MAX_RETRIES) by (destruct sent; lia).
  assert (Hlen : forall j,
    length (bot_calls
              (flat_map (fun i => failure_events env call (calls w + i) i)
                 (seq 0 j))) = j /\
    sleeps (flat_map (fun i => failure_events env call (calls w + i) i)
              (seq 0 j)) = repeat 2 j).
  { induction j as [|j [IHc IHs]]; [split; reflexivity|].
    rewrite seq_S, flat_map_app, bot_calls_app, sleeps_app, length_app.
    rewrite IHc, IHs. cbn [flat_map].
    rewrite app_nil_r, failure_events_calls, failure_events_sleeps.
    split; [simpl; lia|]. now rewrite <- repeat_cons. }
  destruct (Hlen k) as [Hcalls Hsleeps].
  split; [|split; [|split; [exact Hk|split]]].
  - rewrite bot_calls_app, length_app, Hcalls.
    destruct sent; [|simpl; lia].
    rewrite success_events_calls. simpl. lia.
  - rewrite sleeps_app, Hsleeps.
    destruct sent; [|now rewrite app_nil_r].
    now rewrite success_events_sleeps, app_nil_r.
  - destruct sent; split; try discriminate; try tauto; lia.
  - intros ->. exact Hf.
Qed.


(** C8.  When feedparser sets the bozo flag, the turn of the loop logs
    the error, makes no Bot API call, leaves the cursor file as it was,
    does not raise, and sleeps [CHECK_INTERVAL]. *)
Theorem C8_parse_failure_cycle env feed_entries w :
  main_iteration env (Ok {| bozo := true; entries := feed_entries |}) w =
  (Ok tt,
   {| last_entry_file := last_entry_file w;
      calls := calls w;
      trace := trace w ++ [Log ERROR FeedParseFailed;
                           Log INFO (Waiting (CHECK_INTERVAL env));
                           Sleep (CHECK_INTERVAL env)] |}).
Proof.
  unfold main_iteration. run. now rewrite <- !app_assoc.
Qed.

(** C9.  An entry without a link makes the cycle raise [AttributeError]
    as soon as the walk reaches it, whatever its [id] is: the entries
    after it are not looked at, the world is the one the entries before
    it have left, and only the [except] clause of the scheduler loop
    catches the exception (it logs, and sleeps 60 seconds). *)
Theorem C9_missing_link_aborts_cycle env before entry after w :
  e_link entry = None ->
  Forall (unseen (cursor w)) before ->
  exists n' w',
    process_and_send_entries env before w = (Ok n', w') /\
    process_and_send_entries env (before ++ entry :: after) w =
      (Raised AttributeError, w') /\
    main_iteration env
      (Ok {| bozo := false; entries := before ++ entry :: after |}) w =
      (Ok tt,
       {| last_entry_file := last_entry_file w';
          calls := calls w';
          trace := trace w' ++ [Log ERROR MainLoopFailed;
                                Log INFO (Restarting 60);
                                Sleep 60] |}).
Proof.
  intros Hl Hbefore.
  destruct (for_entries_app env (cursor w) before 0 w Hbefore)
    as (n' & w' & Hrun & Hmore).
  exists n', w'. rewrite !process_and_send_entries_eq.
  assert (Hcycle : for_entries env (cursor w) (before ++ entry :: after) 0 w
                   = (Raised AttributeError, w'))
    by (rewrite Hmore; now apply for_entries_no_link).
  repeat split; auto.
  unfold main_iteration, try_except, bind, feedparser_parse. cbn [bozo entries].
  rewrite process_and_send_entries_eq, Hcycle.
  run. now rewrite <- !app_assoc.
Qed.

(** C4, as the specification words it, fails: with a Bot API that
    refuses every call, the loop sleeps three times, once after each of
    the three attempts, where the specification has two sleeps (none
    after the last attempt). *)
Lemma C4_sleep_after_last_attempt :
  let call := send_message (CHANNEL_ID Sample.env_down) (lit "C") in
  let w' := snd (send_attempts Sample.env_down (seq 0 MAX_RETRIES)
                   (lit "3") (lit "C") (lit "C") None 0 Sample.fresh) in
  sleeps (trace w') = [2; 2; 2] /\
  sleeps (Claimed.failure_events Sample.env_down call 0 0
          ++ Claimed.failure_events Sample.env_down call 1 1
          ++ Claimed.failure_events Sample.env_down call 2 2) = [2; 2] /\
  trace w' <>
    Claimed.failure_events Sample.env_down call 0 0
    ++ Claimed.failure_events Sample.env_down call 1 1
    ++ Claimed.failure_events Sample.env_down call 2 2.
Proof.
  cbv zeta. split; [reflexivity|]. split; [reflexivity|].
  intros H. apply (f_equal sleeps) in H. discriminate H.
Qed.


(** C9 at work: the second entry of the feed has an id and no link; the
    first entry is sent, then the cycle raises, and the third entry is
    never looked at. *)
Lemma C9_missing_link_witness :
  exists n' w',
    process_and_send_entries Sample.env_up [Sample.post "3" "C"]
      Sample.fresh = (Ok n', w') /\
    process_and_send_entries Sample.env_up
      ([Sample.post "3" "C"] ++ Sample.post_no_link :: [Sample.post "1" "A"])
      Sample.fresh = (Raised AttributeError, w') /\
    main_iteration Sample.env_up
      (Ok {| bozo := false;
             entries := [Sample.post "3" "C"]
                        ++ Sample.post_no_link :: [Sample.post "1" "A"] |})
      Sample.fresh =
      (Ok tt,
       {| last_entry_file := last_entry_file w';
          calls := calls w';
          trace := trace w' ++ [Log ERROR MainLoopFailed;
                                Log INFO (Restarting 60);
                                Sleep 60] |}).
Proof.
  apply (C9_missing_link_aborts_cycle Sample.env_up [Sample.post "3" "C"]
           Sample.post_no_link [Sample.post "1" "A"] Sample.fresh).
  - reflexivity.
  - constructor; [|constructor].
    exists (lit "https://example.org/posts/3"), (lit "C").
    repeat split; reflexivity.
Defined.

(** ** Image extraction *)

Lemma scan_media_none env media_content :
  Forall (fun media => image_media env media = false) media_content ->
  scan_media env media_content = None.
Proof.
  induction 1 as [|media rest Hm _ IH]; [reflexivity|].
  cbn [scan_media]. unfold image_media in Hm.
  destruct (m_url media) as [url|]; [|exact IH]. now rewrite Hm.
Qed.

Lemma scan_media_first env before media after url :
  Forall (fun media' => image_media env media' = false) before ->
  m_url media = Some url ->
  is_valid_url env url = true ->
  scan_media env (before ++ media :: after) = Some url.
Proof.
  intros Hb Hu Hv. induction Hb as [|media' rest Hm _ IH].
  - cbn [app scan_media]. now rewrite Hu, Hv.
  - cbn [app scan_media]. unfold image_media in Hm.
    destruct (m_url media') as [url'|]; [|exact IH]. now rewrite Hm.
Qed.

(** One step of the loop over the links, by [image_link]. *)
Lemma scan_links_cons env link_data rest :
  scan_links env (link_data :: rest) =
  if image_link env link_data then l_href link_data
  else scan_links env rest.
Proof.
  cbn [scan_links]. unfold image_link.
  destruct (l_href link_data) as [href|]; [|reflexivity].
  destruct (nonempty href && is_valid_url env href); [|reflexivity].
  cbn [andb].
  destruct (startswith (lit "image") _); [reflexivity|].
  cbn [orb]. now destruct (existsb _ image_keywords).
Qed.

Lemma scan_links_none env links :
  Forall (fun link_data => image_link env link_data = false) links ->
  scan_links env links = None.
Proof.
  induction 1 as [|link_data rest Hl _ IH]; [reflexivity|].
  now rewrite scan_links_cons, Hl.
Qed.

Lemma scan_links_first env before link_data after :
  Forall (fun link_data' => image_link env link_data' = false) before ->
  image_link env link_data = true ->
  scan_links env (before ++ link_data :: after) = l_href link_data.
Proof.
  intros Hb Hl. induction Hb as [|link_data' rest Hl' _ IH].
  - cbn [app]. now rewrite scan_links_cons, Hl.
  - cbn [app]. now rewrite scan_links_cons, Hl'.
Qed.

Lemma failure_calls_repeat env call (f g : nat -> nat) (l : list nat) :
  bot_calls (flat_map (fun i => failure_events env call (f i) (g i)) l) =
  repeat call (length l).
Proof.
  induction l as [|i l IH]; [reflexivity|].
  cbn [flat_map]. rewrite bot_calls_app, failure_events_calls, IH.
  reflexivity.
Qed.

(** C3, as amended.  [extract_image_url] takes the first media reference
    with a valid URL, whatever the links are; when no media reference
    has one, it scans the typed links once and takes the first link with
    a valid URL whose type begins with "image" or whose URL holds one of
    the keywords, so that an earlier keyword link wins over a later link
    of type image; otherwise there is no image. *)
Theorem C3_image_extraction_order env entry :
  let media_content :=
    match e_media_content entry with Some m => m | None => [] end in
  let links := match e_links entry with Some l => l | None => [] end in
  (forall before media after url,
     media_content = before ++ media :: after ->
     Forall (fun media' => image_media env media' = false) before ->
     m_url media = Some url ->
     is_valid_url env url = true ->
     extract_image_url env entry = Some url) /\
  (forall before link_data after,
     Forall (fun media => image_media env media = false) media_content ->
     links = before ++ link_data :: after ->
     Forall (fun link_data' => image_link env link_data' = false) before ->
     image_link env link_data = true ->
     extract_image_url env entry = l_href link_data /\
     l_href link_data <> None) /\
  (Forall (fun media => image_media env media = false) media_content ->
   Forall (fun link_data => image_link env link_data = false) links ->
   extract_image_url env entry = None).
Proof.
  intros media_content links. unfold extract_image_url.
  split; [|split].
  - intros before media after url Hm Hb Hu Hv. subst media_content.
    destruct (e_media_content entry) as [m|].
    + subst m. now rewrite (scan_media_first env before media after url).
    + now destruct before.
  - intros before link_data after Hmedia Hl Hb Hlink. subst links.
    assert (Hnone : match e_media_content entry with
                    | Some m => scan_media env m
                    | None => None
                    end = None).
    { subst media_content. destruct (e_media_content entry) as [m|];
        [now apply scan_media_none|reflexivity]. }
    rewrite Hnone. split.
    + destruct (e_links entry) as [l|].
      * subst l. now apply scan_links_first.
      * now destruct before.
    + unfold image_link in Hlink. now destruct (l_href link_data).
  - intros Hmedia Hlinks. subst media_content links.
    destruct (e_media_content entry) as [m|].
    + rewrite scan_media_none by exact Hmedia.
      destruct (e_links entry) as [l|]; [now apply scan_links_none|reflexivity].
    + destruct (e_links entry) as [l|]; [now apply scan_links_none|reflexivity].
Qed.

(** C3, as the specification words it, fails: when a link with a keyword
    in its URL is listed before a link of type image, the script returns
    the keyword link, where the two scans of the specification return
    the link of type image. *)
Lemma C3_keyword_link_wins :
  extract_image_url Sample.env_up Sample.post_two_links =
    Some (lit "https://example.org/img/4") /\
  Claimed.extract_image_url Sample.env_up Sample.post_two_links =
    Some (lit "https://example.org/cover/4") /\
  extract_image_url Sample.env_up Sample.post_two_links <>
  Claimed.extract_image_url Sample.env_up Sample.post_two_links.
Proof. repeat split; try reflexivity. discriminate. Qed.

(** C3 at work: the media reference wins over the link of type image,
    and the earlier keyword link wins over the later link of type
    image. *)
Lemma C3_image_extraction_witness :
  extract_image_url Sample.env_up Sample.post_media =
    Some (lit "https://cdn.example.org/v/4.mp4") /\
  extract_image_url Sample.env_up Sample.post_two_links =
    Some (lit "https://example.org/img/4") /\
  extract_image_url Sample.env_up Sample.post_bad_images = None.
Proof.
  split; [|split].
  - apply (proj1 (C3_image_extraction_order Sample.env_up Sample.post_media)
             [] Sample.video [] (lit "https://cdn.example.org/v/4.mp4"));
      [reflexivity|constructor|reflexivity|reflexivity].
  - apply (proj1 (proj2 (C3_image_extraction_order Sample.env_up
                           Sample.post_two_links))
             [] Sample.thumb [Sample.cover]);
      [constructor|reflexivity|constructor|reflexivity].
  - apply (proj2 (proj2 (C3_image_extraction_order Sample.env_up
                           Sample.post_bad_images)));
      repeat constructor.
Defined.

(** ** Identifiers and the cursor *)

(** C5, as amended.  For an entry that has a link, the identifier is the
    entry's [id] field whenever that field is present, an empty one
    included, and the link when the field is absent; it does not depend
    on the world, so the same entry always gets the same identifier.  It
    is this identifier that the walk compares with the cursor (the walk
    stops there, nothing sent) and that a successful delivery writes to
    the cursor file. *)
Theorem C5_identifier_derivation entry link w :
  e_link entry = Some link ->
  get_id entry w =
    (Ok (match e_id entry with Some i => i | None => link end), w) /\
  (forall w2, fst (get_id entry w2) = fst (get_id entry w)) /\
  (forall env last_id rest n,
     seen last_id (match e_id entry with Some i => i | None => link end)
       = true ->
     for_entries env last_id (entry :: rest) n w = (Ok n, w)) /\
  (forall env last_id title rest n,
     e_title entry = Some title ->
     seen last_id (match e_id entry with Some i => i | None => link end)
       = false ->
     telegram env (calls w) (call_of env entry title link) = SendOk ->
     exists w',
       for_entries env last_id (entry :: rest) n w =
       for_entries env last_id rest (S n) w' /\
       last_entry_file w' =
         Some (stored (match e_id entry with Some i => i | None => link end))).
Proof.
  intros Hl. split; [|split; [|split]].
  - unfold get_id, getattr, bind, ret. now rewrite Hl.
  - intros w2. unfold get_id, getattr, bind, ret. now rewrite Hl.
  - intros env last_id rest n Hs.
    now apply (for_entries_seen env last_id entry link).
  - intros env last_id title rest n Ht Hs Hok. eexists. split.
    + now apply (for_entries_sent env last_id entry link title).
    + reflexivity.
Qed.

(** C5, as the specification words it, fails: an entry whose [id] is
    present and empty gets the empty identifier, not its link. *)
Lemma C5_empty_id_is_kept :
  fst (get_id Sample.post_empty_id Sample.fresh) = Ok [] /\
  Claimed.entry_id Sample.post_empty_id (lit "https://example.org/posts/7")
    = lit "https://example.org/posts/7" /\
  fst (get_id Sample.post_empty_id Sample.fresh) <>
  Ok (Claimed.entry_id Sample.post_empty_id
        (lit "https://example.org/posts/7")).
Proof. repeat split; try reflexivity. discriminate. Qed.

(** C5 at work, on the entry with id "2": its identifier is "2"; with the
    cursor at "2" the walk stops; with no cursor the entry is sent and the
    cursor file holds "2". *)
Lemma C5_identifier_witness :
  get_id (Sample.post "2" "B") Sample.fresh = (Ok (lit "2"), Sample.fresh) /\
  for_entries Sample.env_up (Some (lit "2")) [Sample.post "2" "B"] 0
    Sample.fresh = (Ok 0, Sample.fresh) /\
  exists w',
    for_entries Sample.env_up None [Sample.post "2" "B"] 0 Sample.fresh =
    for_entries Sample.env_up None [] 1 w' /\
    last_entry_file w' = Some (lit "2").
Proof.
  destruct (C5_identifier_derivation (Sample.post "2" "B")
              (lit "https://example.org/posts/2") Sample.fresh eq_refl)
    as (Hid & _ & Hseen & Hsent).
  split; [exact Hid|]. split.
  - apply Hseen. reflexivity.
  - apply (Hsent Sample.env_up None (lit "B") [] 0); reflexivity.
Defined.

Lemma seen_empty (last_id : option str) : seen last_id [] = false.
Proof.
  destruct last_id as [[|c l]|]; [reflexivity| |reflexivity].
  cbn [seen nonempty andb]. now apply str_eqb_neq.
Qed.

(** C10, as amended.  An identifier that is not empty, has no leading or
    trailing whitespace, holds no carriage return and can be encoded in
    UTF-8 is read back by [get_last_entry_id] exactly as
    [save_last_entry_id] wrote it.  Saving the empty string or a string
    of whitespace makes the next read return no cursor; so the
    successful delivery of an entry whose identifier is empty erases the
    watermark, and the next cycle starts with no cursor. *)
Theorem C10_cursor_round_trip entry_id w :
  (entry_id <> [] ->
   isspace (hd 0%N entry_id) = false ->
   isspace (last entry_id 0%N) = false ->
   ~ In 13%N entry_id ->
   utf8_encodable entry_id = true ->
   fst (get_last_entry_id (snd (save_last_entry_id entry_id w)))
   = Ok (Some entry_id)) /\
  (forallb isspace entry_id = true ->
   fst (get_last_entry_id (snd (save_last_entry_id entry_id w))) = Ok None) /\
  (forall env last_id entry link title rest n,
     e_link entry = Some link ->
     e_title entry = Some title ->
     id_of entry link = [] ->
     telegram env (calls w) (call_of env entry title link) = SendOk ->
     exists w',
       for_entries env last_id (entry :: rest) n w =
       for_entries env last_id rest (S n) w' /\
       fst (get_last_entry_id w') = Ok None).
Proof.
  split; [|split].
  - intros Hne Hh Hl Hcr Henc.
    rewrite save_last_entry_id_run, get_last_entry_id_run.
    cbn [fst snd last_entry_file]. unfold stored. rewrite Henc.
    rewrite universal_newlines_plain by exact Hcr.
    rewrite strip_clean by assumption.
    now destruct entry_id.
  - intros Hblank.
    rewrite save_last_entry_id_run, get_last_entry_id_run.
    cbn [fst snd last_entry_file]. unfold stored.
    destruct (utf8_encodable entry_id); [|reflexivity].
    rewrite strip_blank; [reflexivity|].
    now apply universal_newlines_blank.
  - intros env last_id entry link title rest n Hl Ht Hid Hok.
    eexists. split.
    + apply (for_entries_sent env last_id entry link title); auto.
      rewrite Hid. apply seen_empty.
    + rewrite get_last_entry_id_run. cbn [fst last_entry_file].
      now rewrite Hid.
Qed.

(** C10, as the specification words it, fails: an identifier with a
    carriage return inside has no leading or trailing whitespace, and is
    read back with a line feed in its place. *)
Lemma C10_carriage_return_read_as_line_feed :
  [97; 13; 98]%N <> [] /\
  isspace (hd 0%N [97; 13; 98]%N) = false /\
  isspace (last [97; 13; 98]%N 0%N) = false /\
  fst (get_last_entry_id
         (snd (save_last_entry_id [97; 13; 98]%N Sample.fresh)))
  = Ok (Some [97; 10; 98]%N) /\
  fst (get_last_entry_id
         (snd (save_last_entry_id [97; 13; 98]%N Sample.fresh)))
  <> Ok (Some [97; 13; 98]%N).
Proof. repeat split; try reflexivity; discriminate. Qed.

(** C10 at work: "42" comes back as it is, a blank string comes back as
    no cursor, and the delivery of the entry with the empty id leaves no
    cursor behind. *)
Lemma C10_cursor_round_trip_witness :
  fst (get_last_entry_id (snd (save_last_entry_id (lit "42") Sample.fresh)))
  = Ok (Some (lit "42")) /\
  fst (get_last_entry_id
         (snd (save_last_entry_id (lit "  ") (Sample.with_cursor "42"))))
  = Ok None /\
  exists w',
    for_entries Sample.env_up (Some (lit "42")) [Sample.post_empty_id] 0
      (Sample.with_cursor "42") =
    for_entries Sample.env_up (Some (lit "42")) [] 1 w' /\
    fst (get_last_entry_id w') = Ok None.
Proof.
  split; [|split].
  - apply (proj1 (C10_cursor_round_trip (lit "42") Sample.fresh));
      try reflexivity; try discriminate.
    intros [H|[H|[]]]; discriminate H.
  - apply (proj1 (proj2 (C10_cursor_round_trip (lit "  ")
                           (Sample.with_cursor "42")))).
    reflexivity.
  - apply (proj2 (proj2 (C10_cursor_round_trip [] (Sample.with_cursor "42")))
             Sample.env_up (Some (lit "42")) Sample.post_empty_id
             (lit "https://example.org/posts/7") (lit "G") [] 0);
      reflexivity.
Defined.

(** ** Truncation *)

(** C2, as amended.  [truncate_text] returns a text of at most [max_len]
    characters unchanged.  A longer text is cut to its first [max_len]
    characters; what is kept is the part of the cut before its last
    space (U+0020) when that part is not empty, and the whole cut when
    the cut has no space or nothing before its only space; the ellipsis
    "..." is appended to what is kept, which is a prefix of the text of
    at most [max_len] characters, followed in the text by a space unless
    the cut was kept whole.  The message holds the title and the link
    untruncated around [truncate_text summary 3500], and the caption of
    a photo is [truncate_text message 1024]. *)
Theorem C2_truncation_law text max_len :
  (length text <= max_len -> truncate_text text max_len = text) /\
  (max_len < length text ->
   exists kept rest,
     truncate_text text max_len = kept ++ ellipsis /\
     text = kept ++ rest /\
     length kept <= max_len /\
     ((kept <> [] /\
       exists tail,
         firstn max_len text = kept ++ 32%N :: tail /\ ~ In 32%N tail)
      \/
      (kept = firstn max_len text /\
       (~ In 32%N kept \/
        exists tail, kept = 32%N :: tail /\ ~ In 32%N tail)))) /\
  (forall title summary link,
     format_message title summary link =
     lit "<b>" ++ title ++ lit "</b>" ++ [10; 10]%N
     ++ truncate_text summary 3500 ++ [10; 10]%N ++ read_more ++ link) /\
  (forall env attempts entry_id title message c url n w,
     exists (sent : bool) w' events,
       send_attempts env attempts entry_id title message (Some (c :: url))
         n w = (Ok (sent, if sent then S n else n), w') /\
       trace w' = trace w ++ events /\
       Forall (eq (send_photo (CHANNEL_ID env) (c :: url)
                     (truncate_text message 1024)))
         (bot_calls events)).
Proof.
  split; [|split; [|split]].
  - intros H. unfold truncate_text.
    now rewrite (proj2 (Nat.leb_le _ _) H).
  - intros H. unfold truncate_text, rsplit_space_head.
    rewrite (proj2 (Nat.leb_gt _ _) H).
    pose proof (firstn_skipn max_len text) as Hsplit.
    pose proof (firstn_le_length max_len text) as Hlen.
    destruct (before_last_space (firstn max_len text)) as [p|] eqn:E.
    + destruct (before_last_space_Some _ _ E) as (q & Hcut & Hq).
      destruct p as [|c p].
      * cbn [nonempty]. exists (firstn max_len text), (skipn max_len text).
        repeat split; auto. right. split; [reflexivity|]. right.
        exists q. now split.
      * cbn [nonempty]. exists (c :: p), (32%N :: q ++ skipn max_len text).
        split; [reflexivity|]. split; [|split].
        -- rewrite <- Hsplit at 1. rewrite Hcut, <- app_assoc. reflexivity.
        -- rewrite Hcut, length_app in Hlen. lia.
        -- left. split; [discriminate|]. exists q. now split.
    + exists (firstn max_len text), (skipn max_len text).
      split; [now destruct (nonempty (firstn max_len text))|].
      repeat split; auto. right. split; [reflexivity|]. left.
      now apply before_last_space_None.
  - reflexivity.
  - intros env attempts entry_id title message c url n w.
    destruct (send_attempts_run env attempts entry_id title message
                (Some (c :: url)) n w)
      as (sent & w' & events & Hrun & Ht & Hc & _).
    exists sent, w', events. repeat split; auto.
Qed.

(** C2, as the specification words it, fails: the title, the label and
    the link stand outside the truncation, so a summary of 3500
    characters, which [truncate_text] lets pass, gives a message of 3553
    characters. *)
Lemma C2_message_longer_than_3500 :
  bot_calls
    (trace (snd (process_and_send_entries Sample.env_up [Sample.post_long]
                   Sample.fresh))) =
    [send_message (CHANNEL_ID Sample.env_up)
       (message_of (lit "D") (lit "https://example.org/posts/4")
          (Some (repeat 97%N 3500)))] /\
  length (message_of (lit "D") (lit "https://example.org/posts/4")
            (Some (repeat 97%N 3500))) = 3553 /\
  ~ length (message_of (lit "D") (lit "https://example.org/posts/4")
              (Some (repeat 97%N 3500))) <= 3500.
Proof.
  split; [vm_compute; reflexivity|].
  assert (H : length (message_of (lit "D") (lit "https://example.org/posts/4")
                        (Some (repeat 97%N 3500))) = 3553)
    by (vm_compute; reflexivity).
  split; [exact H|]. rewrite H. lia.
Qed.

(** C2 at work: a short text is unchanged; a long one is cut before the
    last space of its first 13 characters. *)
Lemma C2_truncation_witness :
  truncate_text (lit "hello world") 13 = lit "hello world" /\
  exists kept rest,
    truncate_text (lit "hello world again") 13 = kept ++ ellipsis /\
    lit "hello world again" = kept ++ rest /\
    length kept <= 13 /\
    ((kept <> [] /\
      exists tail,
        firstn 13 (lit "hello world again") = kept ++ 32%N :: tail /\
        ~ In 32%N tail)
     \/
     (kept = firstn 13 (lit "hello world again") /\
      (~ In 32%N kept \/
       exists tail, kept = 32%N :: tail /\ ~ In 32%N tail))).
Proof.
  split.
  - apply (proj1 (C2_truncation_law (lit "hello world") 13)).
    vm_compute. lia.
  - apply (proj1 (proj2 (C2_truncation_law (lit "hello world again") 13))).
    vm_compute. lia.
Defined.

(** ** A whole cycle *)

Lemma last_cons_default {A} (x d : A) (l : list A) :
  last (x :: l) d = last l x.
Proof.
  assert (Hany : forall (l' : list A) (y a b : A),
            last (y :: l') a = last (y :: l') b).
  { induction l' as [|z l' IH]; intros y a b; [reflexivity|].
    change (last (z :: l') a = last (z :: l') b). apply IH. }
  destruct l as [|y l]; [reflexivity|].
  change (last (y :: l) d = last (y :: l) x). apply Hany.
Qed.

(** A cycle in which the Bot API accepts every call: the unseen entries
    are sent in feed order, each at the first attempt, and the cursor
    file is left with the identifier of the last of them, which is the
    oldest one. *)
Lemma for_entries_all_accepted env last_id new n w :
  (forall k call, telegram env k call = SendOk) ->
  Forall (unseen last_id) new ->
  exists w' events,
    (forall more,
       for_entries env last_id (new ++ more) n w =
       for_entries env last_id more (n + length new) w') /\
    trace w' = trace w ++ events /\
    bot_calls events = map (entry_call env) new /\
    last_entry_file w' =
      last (map (fun entry => Some (stored (entry_id_of entry))) new)
        (last_entry_file w).
Proof.
  intros Hup Hnew. revert n w.
  induction Hnew as [|entry new (link & title & Hl & Ht & Hs) _ IH];
    intros n w.
  - exists w, []. rewrite app_nil_r, Nat.add_0_r. repeat split; auto.
  - destruct (IH (S n)
      {| last_entry_file := Some (stored (id_of entry link));
         calls := S (calls w);
         trace := trace w
           ++ success_events (call_of env entry title link)
                (html_escape title) (id_of entry link)
           ++ [Sleep (POST_COOLDOWN env)] |})
      as (w' & events & Hrun & Htr & Hcalls & Hfile).
    cbn [trace last_entry_file] in Htr, Hfile.
    exists w'. eexists. split; [|split; [|split]].
    + intros more. rewrite <- app_comm_cons.
      rewrite (for_entries_sent env last_id entry link title
                 (new ++ more) n w Hl Ht Hs (Hup _ _)).
      rewrite Hrun. cbn [length]. now rewrite Nat.add_succ_comm.
    + rewrite Htr, <- !app_assoc. reflexivity.
    + rewrite !bot_calls_app, success_events_calls, Hcalls.
      cbn [map]. unfold entry_call, title_of, link_of.
      now rewrite Hl, Ht.
    + cbn [map]. rewrite last_cons_default, Hfile.
      unfold entry_id_of, link_of. now rewrite Hl.
Qed.

(** C1 on the feed of the end-to-end scenario, with no prior cursor and a
    Bot API that accepts every call.  The three entries are sent in feed
    order, C, B, A; the cursor file is written after each of them and
    ends holding "1", the identifier of the oldest entry, not "3".  The
    second cycle over the same feed therefore stops only at the third
    entry, and sends C and B once more. *)
Theorem C1_cursor_left_at_oldest_entry :
  let first :=
    process_and_send_entries Sample.env_up Sample.feed_cba Sample.fresh in
  let second :=
    process_and_send_entries Sample.env_up Sample.feed_cba (snd first) in
  fst first = Ok 3 /\
  bot_calls (trace (snd first)) =
    map (entry_call Sample.env_up) Sample.feed_cba /\
  last_entry_file (snd first) = Some (lit "1") /\
  fst second = Ok 2 /\
  bot_calls (trace (snd second)) =
    map (entry_call Sample.env_up) Sample.feed_cba
    ++ map (entry_call Sample.env_up)
         [Sample.post "3" "C"; Sample.post "2" "B"].
Proof. vm_compute. repeat split; reflexivity. Qed.

(** The ellipsis is added to a cut of [max_len] characters: a text of
    1025 letters cut at 1024 comes out 1027 characters long. *)
Example truncate_text_adds_three :
  length (truncate_text (repeat 97%N 1025) 1024) = 1027.
Proof. vm_compute. reflexivity. Qed.

(** ** The scheduler never stops on a failed cycle *)

Lemma main_iteration_returns env parsed w :
  exists w', main_iteration env parsed w = (Ok tt, w').
Proof.
  unfold main_iteration, try_except.
  match goal with
  | |- context [match ?body w with _ => _ end] =>
      destruct (body w) as [[[]|e] w1]
  end; eexists; reflexivity.
Qed.

Lemma main_loop_returns env downloads w :
  exists w', main_loop env downloads w = (Ok tt, w').
Proof.
  revert w. induction downloads as [|parsed later IH]; intros w.
  - now exists w.
  - cbn [main_loop]. unfold bind.
    destruct (main_iteration_returns env parsed w) as (w1 & ->).
    apply IH.
Qed.

(** * Further properties of the script *)

(** ** Counting in traces *)

Lemma processed_app (a b : list Event) :
  processed (a ++ b) = processed a + processed b.
Proof. unfold processed. now rewrite filter_app, length_app. Qed.

Lemma failure_events_processed env call k a :
  processed (failure_events env call k a) = 0.
Proof.
  unfold failure_events, processed. cbn.
  destruct (telegram env k call); now destruct (a =? 2).
Qed.

Lemma failures_processed env call (f g : nat -> nat) (l : list nat) :
  processed (flat_map (fun i => failure_events env call (f i) (g i)) l) = 0.
Proof.
  induction l as [|i l IH]; [reflexivity|].
  cbn [flat_map]. now rewrite processed_app, failure_events_processed, IH.
Qed.

Lemma failures_sleeps env call (f g : nat -> nat) (l : list nat) :
  sleeps (flat_map (fun i => failure_events env call (f i) (g i)) l) =
  repeat 2 (length l).
Proof.
  induction l as [|i l IH]; [reflexivity|].
  cbn [flat_map]. now rewrite sleeps_app, failure_events_sleeps, IH.
Qed.

Lemma success_events_processed call title entry_id :
  processed (success_events call title entry_id) = 1.
Proof.
  unfold success_events, processed. cbn.
  destruct (is_photo call); now destruct (utf8_encodable entry_id).
Qed.

(** ** One entry of the walk, in full *)

Lemma delivery_events_calls env entry title link first_call k sent :
  bot_calls (delivery_events env entry title link first_call k sent) =
  repeat (call_of env entry title link) (k + (if sent then 1 else 0)).
Proof.
  unfold delivery_events.
  rewrite bot_calls_app, failure_calls_repeat, length_seq.
  destruct sent.
  - rewrite bot_calls_app, success_events_calls. cbn [bot_calls flat_map].
    rewrite app_nil_r, repeat_app. reflexivity.
  - cbn [bot_calls flat_map]. now rewrite app_nil_r, Nat.add_0_r.
Qed.

Lemma delivery_events_processed env entry title link first_call k sent :
  processed (delivery_events env entry title link first_call k sent) =
  if sent then 1 else 0.
Proof.
  unfold delivery_events. rewrite processed_app, failures_processed.
  destruct sent; [|reflexivity].
  now rewrite processed_app, success_events_processed.
Qed.

Lemma delivery_events_sleeps env entry title link first_call k sent :
  sleeps (delivery_events env entry title link first_call k sent) =
  repeat 2 k ++ (if sent then [POST_COOLDOWN env] else []).
Proof.
  unfold delivery_events. rewrite sleeps_app, failures_sleeps, length_seq.
  destruct sent; [|reflexivity].
  now rewrite sleeps_app, success_events_sleeps.
Qed.

(** The walk on an unseen entry, whatever the Bot API answers. *)
Lemma for_entries_unseen env last_id entry link title rest n w :
  e_link entry = Some link ->
  e_title entry = Some title ->
  seen last_id (id_of entry link) = false ->
  exists k (sent : bool) w1,
    for_entries env last_id (entry :: rest) n w =
    for_entries env last_id rest (if sent then S n else n) w1 /\
    (forall i, i < k ->
       telegram env (calls w + i) (call_of env entry title link) <> SendOk) /\
    (if sent
     then k < MAX_RETRIES /\
          telegram env (calls w + k) (call_of env entry title link) = SendOk
     else k = MAX_RETRIES) /\
    trace w1 =
      trace w ++ delivery_events env entry title link (calls w) k sent /\
    calls w1 = calls w + k + (if sent then 1 else 0) /\
    last_entry_file w1 =
      (if sent then Some (stored (id_of entry link)) else last_entry_file w).
Proof.
  intros Hl Ht Hs.
  destruct (send_attempts_trace env 0 MAX_RETRIES (id_of entry link)
              (html_escape title) (message_of title link (e_summary entry))
              (extract_image_url env entry) n w)
    as (k & sent & w1 & Hrun & Hk & Hsent & Htr & Hc & Hf).
  fold (call_of env entry title link) in Hk, Hsent, Htr.
  cbn [Nat.add] in Htr.
  rewrite (for_entries_deliver env last_id entry link title _ _ _ Hl Ht Hs).
  rewrite Hrun. exists k, sent.
  destruct sent.
  - eexists. split; [reflexivity|]. unfold record, delivery_events.
    cbn [trace calls last_entry_file].
    repeat split; auto; try tauto.
    rewrite Htr, <- !app_assoc. reflexivity.
  - exists w1. split; [reflexivity|]. unfold delivery_events.
    repeat split; auto.
Qed.

Lemma for_entries_no_title env last_id entry link rest n w :
  e_link entry = Some link ->
  e_title entry = None ->
  seen last_id (id_of entry link) = false ->
  for_entries env last_id (entry :: rest) n w = (Raised AttributeError, w).
Proof.
  intros Hl Ht Hs. cbn [for_entries].
  unfold get_id, getattr, bind. rewrite Hl, Ht. unfold ret at 1 2.
  fold (id_of entry link). now rewrite Hs.
Qed.

Lemma entry_call_eq env entry link title :
  e_link entry = Some link -> e_title entry = Some title ->
  entry_call env entry = call_of env entry title link.
Proof. intros Hl Ht. unfold entry_call, title_of, link_of. now rewrite Hl, Ht. Qed.

Lemma entry_id_of_eq entry link :
  e_link entry = Some link -> entry_id_of entry = id_of entry link.
Proof. intros Hl. unfold entry_id_of, link_of. now rewrite Hl. Qed.

(** ** Invariants of a cycle, for any feed and any Bot API *)

Lemma for_entries_inv env last_id entries n w :
  exists r w' events sent_count,
    for_entries env last_id entries n w = (r, w') /\
    trace w' = trace w ++ events /\
    calls w' = calls w + length (bot_calls events) /\
    (r = Ok (n + sent_count) \/ r = Raised AttributeError) /\
    processed events = sent_count /\
    sent_count <= length entries /\
    length (bot_calls events) <= MAX_RETRIES * length entries /\
    Forall (fun call =>
              exists entry, In entry entries /\ call = entry_call env entry)
      (bot_calls events) /\
    (sent_count = 0 -> last_entry_file w' = last_entry_file w) /\
    (0 < sent_count ->
     exists entry,
       In entry entries /\
       last_entry_file w' = Some (stored (entry_id_of entry))).
Proof.
  revert n w. induction entries as [|entry rest IH]; intros n w.
  - exists (Ok n), w, [], 0. cbn. rewrite app_nil_r, !Nat.add_0_r.
    repeat split; auto. intros H. lia.
  - assert (Hstop : forall r,
      for_entries env last_id (entry :: rest) n w = (r, w) ->
      r = Ok n \/ r = Raised AttributeError ->
      exists r w' events sent_count,
        for_entries env last_id (entry :: rest) n w = (r, w') /\
        trace w' = trace w ++ events /\
        calls w' = calls w + length (bot_calls events) /\
        (r = Ok (n + sent_count) \/ r = Raised AttributeError) /\
        processed events = sent_count /\
        sent_count <= length (entry :: rest) /\
        length (bot_calls events) <= MAX_RETRIES * length (entry :: rest) /\
        Forall (fun call =>
                  exists entry0,
                    In entry0 (entry :: rest) /\
                    call = entry_call env entry0) (bot_calls events) /\
        (sent_count = 0 -> last_entry_file w' = last_entry_file w) /\
        (0 < sent_count ->
         exists entry0,
           In entry0 (entry :: rest) /\
           last_entry_file w' = Some (stored (entry_id_of entry0)))).
    { intros r Hrun Hr. exists r, w, [], 0. cbn.
      rewrite app_nil_r, !Nat.add_0_r.
      repeat split; auto; try lia. }
    destruct (e_link entry) as [link|] eqn:Hl;
      [|apply (Hstop (Raised AttributeError));
        [now apply for_entries_no_link|now right]].
    destruct (seen last_id (id_of entry link)) eqn:Hs;
      [apply (Hstop (Ok n));
       [now apply (for_entries_seen env last_id entry link)|now left]|].
    destruct (e_title entry) as [title|] eqn:Ht;
      [|apply (Hstop (Raised AttributeError));
        [now apply (for_entries_no_title env last_id entry link)|now right]].
    clear Hstop.
    destruct (for_entries_unseen env last_id entry link title rest n w
                Hl Ht Hs)
      as (k & sent & w1 & Hrun & _ & Hsent & Htr & Hc & Hf).
    destruct (IH (if sent then S n else n) w1)
      as (r & w' & events & sent' & Hrest & Htr' & Hc' & Hr & Hp & Hle & Hcalls
          & Hall & Hf0 & Hf1).
    assert (Hk : k + (if sent then 1 else 0) <= MAX_RETRIES)
      by (destruct sent; lia).
    exists r, w',
      (delivery_events env entry title link (calls w) k sent ++ events),
      ((if sent then 1 else 0) + sent').
    rewrite Hrun, Hrest, Htr', Htr, <- app_assoc.
    rewrite bot_calls_app, processed_app, delivery_events_calls,
      delivery_events_processed, length_app, repeat_length, Hp.
    split; [reflexivity|]. split; [reflexivity|].
    split; [rewrite Hc', Hc; lia|].
    split; [destruct Hr as [-> | ->]; [left; f_equal; destruct sent; lia
                                    |now right]|].
    split; [reflexivity|].
    split; [cbn [length]; destruct sent; lia|].
    split; [cbn [length]; unfold MAX_RETRIES in *; lia|].
    split; [|split].
    + apply Forall_app. split.
      * apply Forall_forall. intros call Hin. apply repeat_spec in Hin.
        exists entry. split; [now left|].
        now rewrite (entry_call_eq env entry link title).
      * eapply Forall_impl; [|exact Hall].
        intros call (entry0 & Hin & ->). exists entry0. split; [now right|].
        reflexivity.
    + intros H0. destruct sent; [discriminate|].
      rewrite Hf0 by lia. exact Hf.
    + intros Hpos. destruct (Nat.eq_dec sent' 0) as [H0|H0].
      * destruct sent; [|lia]. exists entry. split; [now left|].
        rewrite Hf0 by exact H0. rewrite Hf.
        now rewrite (entry_id_of_eq entry link).
      * destruct (Hf1 ltac:(lia)) as (entry0 & Hin & Hfile).
        exists entry0. split; [now right|exact Hfile].
Qed.

Lemma for_entries_stops env last_id tail n w :
  stops_at last_id tail -> for_entries env last_id tail n w = (Ok n, w).
Proof.
  intros [->|(entry & after & link & -> & Hl & Hs)]; [reflexivity|].
  now apply (for_entries_seen env last_id entry link).
Qed.

(** X1.  A cycle, for any feed and any behaviour of the Bot API: it
    returns the number of entries sent or raises [AttributeError] and
    nothing else; the number returned is the number of "entry processed"
    records it logged and is at most the number of feed entries; and it
    makes at most [MAX_RETRIES] Bot API calls per feed entry. *)
Theorem cycle_bounds env feed_entries w :
  exists r w' events sent_count,
    process_and_send_entries env feed_entries w = (r, w') /\
    (r = Ok sent_count \/ r = Raised AttributeError) /\
    trace w' = trace w ++ events /\
    processed events = sent_count /\
    sent_count <= length feed_entries /\
    length (bot_calls events) <= MAX_RETRIES * length feed_entries /\
    calls w' = calls w + length (bot_calls events).
Proof.
  rewrite process_and_send_entries_eq.
  destruct (for_entries_inv env (cursor w) feed_entries 0 w)
    as (r & w' & events & sent_count & Hrun & Htr & Hc & Hr & Hp & Hle & Hcalls
        & _).
  exists r, w', events, sent_count. repeat split; auto.
Qed.

(** X2.  The cursor file and the deliveries of a cycle: when no entry
    was sent the file is exactly as it was, whatever failed; when some
    entry was sent the file holds what [save_last_entry_id] stores for
    the identifier of one of the feed's entries. *)
Theorem cursor_written_only_after_send env feed_entries w :
  exists r w' events,
    process_and_send_entries env feed_entries w = (r, w') /\
    trace w' = trace w ++ events /\
    (processed events = 0 -> last_entry_file w' = last_entry_file w) /\
    (0 < processed events ->
     exists entry,
       In entry feed_entries /\
       last_entry_file w' = Some (stored (entry_id_of entry))).
Proof.
  rewrite process_and_send_entries_eq.
  destruct (for_entries_inv env (cursor w) feed_entries 0 w)
    as (r & w' & events & sent_count & Hrun & Htr & _ & _ & Hp & _ & _ & _
        & Hf0 & Hf1).
  exists r, w', events. rewrite Hp. repeat split; auto.
Qed.

(** X3.  The watermark: when the entries before the cursor entry are all
    unseen, the cycle over the whole feed is the cycle over those
    entries alone, for any behaviour of the Bot API; the cursor entry
    and everything listed after it is never sent, and never looked at
    (an entry without a link or a title among them raises nothing). *)
Theorem watermark_stops_the_walk env before entry link after w :
  Forall (unseen (cursor w)) before ->
  e_link entry = Some link ->
  seen (cursor w) (id_of entry link) = true ->
  process_and_send_entries env (before ++ entry :: after) w =
  process_and_send_entries env before w.
Proof.
  intros Hb Hl Hs. rewrite !process_and_send_entries_eq.
  destruct (for_entries_app env (cursor w) before 0 w Hb)
    as (n' & w' & Hrun & Hmore).
  rewrite Hmore, Hrun.
  now apply (for_entries_seen env (cursor w) entry link).
Qed.

Lemma watermark_witness :
  process_and_send_entries Sample.env_late
    ([Sample.post "3" "C"] ++ Sample.post "2" "B" :: [Sample.post_no_link])
    (Sample.with_cursor "2") =
  process_and_send_entries Sample.env_late [Sample.post "3" "C"]
    (Sample.with_cursor "2").
Proof.
  apply (watermark_stops_the_walk Sample.env_late [Sample.post "3" "C"]
           (Sample.post "2" "B") (lit "https://example.org/posts/2")
           [Sample.post_no_link] (Sample.with_cursor "2")).
  - constructor; [|constructor].
    exists (lit "https://example.org/posts/3"), (lit "C").
    repeat split; reflexivity.
  - reflexivity.
  - reflexivity.
Defined.

(** X4.  A cycle in which the Bot API accepts every call sends exactly
    the unseen entries that precede the place where the walk stops (the
    end of the feed or the cursor entry), in feed order, with one call
    each, and returns their number. *)
Theorem accepted_cycle_sends_the_new_entries env new tail w :
  (forall k call, telegram env k call = SendOk) ->
  Forall (unseen (cursor w)) new ->
  stops_at (cursor w) tail ->
  exists w' events,
    process_and_send_entries env (new ++ tail) w = (Ok (length new), w') /\
    trace w' = trace w ++ events /\
    bot_calls events = map (entry_call env) new.
Proof.
  intros Hup Hnew Htail. rewrite process_and_send_entries_eq.
  destruct (for_entries_all_accepted env (cursor w) new 0 w Hup Hnew)
    as (w' & events & Hrun & Htr & Hcalls & _).
  exists w', events. rewrite Hrun. cbn [Nat.add].
  split; [now apply for_entries_stops|]. now split.
Qed.

Lemma accepted_cycle_witness :
  exists w' events,
    process_and_send_entries Sample.env_up
      ([Sample.post "3" "C"; Sample.post "2" "B"] ++ [Sample.post "1" "A"])
      (Sample.with_cursor "1") = (Ok 2, w') /\
    trace w' = trace (Sample.with_cursor "1") ++ events /\
    bot_calls events =
      map (entry_call Sample.env_up) [Sample.post "3" "C"; Sample.post "2" "B"].
Proof.
  apply (accepted_cycle_sends_the_new_entries Sample.env_up
           [Sample.post "3" "C"; Sample.post "2" "B"] [Sample.post "1" "A"]
           (Sample.with_cursor "1")).
  - reflexivity.
  - constructor; [|constructor; [|constructor]].
    + exists (lit "https://example.org/posts/3"), (lit "C").
      repeat split; reflexivity.
    + exists (lit "https://example.org/posts/2"), (lit "B").
      repeat split; reflexivity.
  - right. exists (Sample.post "1" "A"), [], (lit "https://example.org/posts/1").
    repeat split; reflexivity.
Defined.

(** X5.  An entry that has a link and no title: when its identifier is
    the cursor the walk stops there quietly, the title never being
    read; otherwise the cycle raises [AttributeError] when the walk
    reaches it, after the entries before it have been handled, and the
    later entries are not looked at. *)
Theorem missing_title_raises_unless_seen env before entry link after w :
  Forall (unseen (cursor w)) before ->
  e_link entry = Some link ->
  e_title entry = None ->
  exists n' w',
    process_and_send_entries env before w = (Ok n', w') /\
    process_and_send_entries env (before ++ entry :: after) w =
    (if seen (cursor w) (id_of entry link) then Ok n'
     else Raised AttributeError, w').
Proof.
  intros Hb Hl Ht. rewrite !process_and_send_entries_eq.
  destruct (for_entries_app env (cursor w) before 0 w Hb)
    as (n' & w' & Hrun & Hmore).
  exists n', w'. split; [exact Hrun|]. rewrite Hmore.
  destruct (seen (cursor w) (id_of entry link)) eqn:Hs.
  - now apply (for_entries_seen env (cursor w) entry link).
  - now apply (for_entries_no_title env (cursor w) entry link).
Qed.

Lemma missing_title_witness :
  exists n' w',
    process_and_send_entries Sample.env_up [Sample.post "3" "C"]
      Sample.fresh = (Ok n', w') /\
    process_and_send_entries Sample.env_up
      ([Sample.post "3" "C"]
       ++ {| e_id := Some (lit "2");
             e_link := Some (lit "https://example.org/posts/2");
             e_title := None; e_summary := None;
             e_media_content := None; e_links := None |}
       :: [Sample.post "1" "A"]) Sample.fresh =
    (Raised AttributeError, w').
Proof.
  apply (missing_title_raises_unless_seen Sample.env_up
           [Sample.post "3" "C"]
           {| e_id := Some (lit "2");
              e_link := Some (lit "https://example.org/posts/2");
              e_title := None; e_summary := None;
              e_media_content := None; e_links := None |}
           (lit "https://example.org/posts/2") [Sample.post "1" "A"]
           Sample.fresh).
  - constructor; [|constructor].
    exists (lit "https://example.org/posts/3"), (lit "C").
    repeat split; reflexivity.
  - reflexivity.
  - reflexivity.
Defined.

(** X6.  A transient failure is recovered: when the Bot API refuses the
    first [k] attempts, [k] below [MAX_RETRIES], and accepts the next
    one, the entry counts as sent, the cursor file holds what is stored
    for its identifier, and the loop has slept 2 seconds after each
    refusal and then the cooldown once. *)
Theorem retry_recovers env last_id entry link title rest n w k :
  e_link entry = Some link ->
  e_title entry = Some title ->
  seen last_id (id_of entry link) = false ->
  k < MAX_RETRIES ->
  (forall i, i < k ->
     telegram env (calls w + i) (call_of env entry title link) <> SendOk) ->
  telegram env (calls w + k) (call_of env entry title link) = SendOk ->
  exists w1,
    for_entries env last_id (entry :: rest) n w =
    for_entries env last_id rest (S n) w1 /\
    trace w1 =
      trace w ++ delivery_events env entry title link (calls w) k true /\
    sleeps (delivery_events env entry title link (calls w) k true) =
      repeat 2 k ++ [POST_COOLDOWN env] /\
    calls w1 = calls w + k + 1 /\
    last_entry_file w1 = Some (stored (id_of entry link)).
Proof.
  intros Hl Ht Hs Hk Hfail Hok.
  destruct (for_entries_unseen env last_id entry link title rest n w
              Hl Ht Hs)
    as (k' & sent & w1 & Hrun & Hfail' & Hsent & Htr & Hc & Hf).
  assert (Hkk : k' = k /\ sent = true).
  { destruct sent.
    - destruct Hsent as [Hlt Hok']. split; [|reflexivity].
      destruct (Nat.lt_trichotomy k' k) as [H|[H|H]]; [|exact H|].
      + now destruct (Hfail k' H).
      + now destruct (Hfail' k H).
    - subst k'. now destruct (Hfail' k Hk). }
  destruct Hkk as [-> ->].
  exists w1. rewrite delivery_events_sleeps. repeat split; auto.
Qed.

Lemma retry_recovers_witness :
  exists w1,
    for_entries (Sample.env_with (fun n _ => if n <? 2 then SendTelegramError
                                             else SendOk))
      None [Sample.post "3" "C"] 0 Sample.fresh =
    for_entries (Sample.env_with (fun n _ => if n <? 2 then SendTelegramError
                                             else SendOk))
      None [] 1 w1 /\
    sleeps (trace w1) = [2; 2; 60] /\
    calls w1 = 3 /\
    last_entry_file w1 = Some (lit "3").
Proof.
  destruct (retry_recovers
              (Sample.env_with (fun n _ => if n <? 2 then SendTelegramError
                                           else SendOk))
              None (Sample.post "3" "C") (lit "https://example.org/posts/3")
              (lit "C") [] 0 Sample.fresh 2)
    as (w1 & Hrun & Htr & Hsl & Hc & Hf).
  - reflexivity.
  - reflexivity.
  - reflexivity.
  - unfold MAX_RETRIES. lia.
  - intros i Hi. destruct i as [|[|i]]; cbn; try discriminate. lia.
  - reflexivity.
  - exists w1. rewrite Htr. cbn [trace Sample.fresh app]. rewrite Hsl.
    repeat split; auto.
Defined.

(** X7.  A single new entry is not sent twice: when the newest entry is
    the only unseen one, is accepted at the first attempt, and has an
    identifier that the cursor file gives back unchanged (not empty, no
    whitespace at either end, no carriage return, encodable), the cycle
    sends it and leaves the cursor on it, and a second cycle over the
    same feed sends nothing and changes nothing, whatever the Bot API
    would answer. *)
Theorem single_new_entry_is_not_resent env env' entry link title tail w :
  e_link entry = Some link ->
  e_title entry = Some title ->
  id_of entry link <> [] ->
  isspace (hd 0%N (id_of entry link)) = false ->
  isspace (last (id_of entry link) 0%N) = false ->
  ~ In 13%N (id_of entry link) ->
  utf8_encodable (id_of entry link) = true ->
  seen (cursor w) (id_of entry link) = false ->
  stops_at (cursor w) tail ->
  telegram env (calls w) (call_of env entry title link) = SendOk ->
  exists w1,
    process_and_send_entries env (entry :: tail) w = (Ok 1, w1) /\
    cursor w1 = Some (id_of entry link) /\
    process_and_send_entries env' (entry :: tail) w1 = (Ok 0, w1).
Proof.
  intros Hl Ht Hne Hh Hla Hcr Henc Hs Htail Hok.
  eexists. split; [|split].
  - rewrite process_and_send_entries_eq.
    rewrite (for_entries_sent env (cursor w) entry link title tail 0 w
               Hl Ht Hs Hok).
    now apply for_entries_stops.
  - rewrite cursor_eq. cbn [last_entry_file]. unfold stored. rewrite Henc.
    rewrite universal_newlines_plain by exact Hcr.
    rewrite strip_clean by assumption.
    destruct (id_of entry link); [congruence|reflexivity].
  - rewrite process_and_send_entries_eq.
    apply (for_entries_seen env' _ entry link); [exact Hl|].
    rewrite cursor_eq. cbn [last_entry_file]. unfold stored. rewrite Henc.
    rewrite universal_newlines_plain by exact Hcr.
    rewrite strip_clean by assumption.
    destruct (id_of entry link) as [|c i] eqn:E; [congruence|].
    cbn [nonempty seen andb]. apply str_eqb_refl.
Qed.

Lemma single_new_entry_witness :
  exists w1,
    process_and_send_entries Sample.env_up
      [Sample.post "3" "C"; Sample.post "2" "B"; Sample.post "1" "A"]
      (Sample.with_cursor "2") = (Ok 1, w1) /\
    cursor w1 = Some (lit "3") /\
    process_and_send_entries Sample.env_down
      [Sample.post "3" "C"; Sample.post "2" "B"; Sample.post "1" "A"]
      w1 = (Ok 0, w1).
Proof.
  apply (single_new_entry_is_not_resent Sample.env_up Sample.env_down
           (Sample.post "3" "C") (lit "https://example.org/posts/3")
           (lit "C") [Sample.post "2" "B"; Sample.post "1" "A"]
           (Sample.with_cursor "2")); try reflexivity.
  - discriminate.
  - intros [H|[]]. discriminate H.
  - right. exists (Sample.post "2" "B"), [Sample.post "1" "A"],
      (lit "https://example.org/posts/2").
    repeat split; reflexivity.
Defined.

(** ** The scheduler *)

Lemma last_event_app3 (events : list Event) (a b c : Event) :
  last_event (events ++ [a; b; c]) = Some c.
Proof. unfold last_event. now rewrite rev_app_distr. Qed.

(** X8.  A turn of the loop with nothing new (the feed is empty, or its
    newest entry is the cursor): no Bot API call, the cursor file as it
    was, "nothing new" and the waiting time logged, and the sleep of
    [CHECK_INTERVAL]. *)
Theorem quiet_turn env feed w :
  bozo feed = false ->
  stops_at (cursor w) (entries feed) ->
  main_iteration env (Ok feed) w =
  (Ok tt,
   {| last_entry_file := last_entry_file w;
      calls := calls w;
      trace := trace w ++ [Log INFO NothingNew;
                           Log INFO (Waiting (CHECK_INTERVAL env));
                           Sleep (CHECK_INTERVAL env)] |}).
Proof.
  intros Hb Hstop.
  unfold main_iteration, try_except, bind, feedparser_parse.
  rewrite Hb, process_and_send_entries_eq.
  rewrite (for_entries_stops env (cursor w) (entries feed) 0 w Hstop).
  run. now rewrite <- !app_assoc.
Qed.

Lemma quiet_turn_witness :
  main_iteration Sample.env_down
    (Ok {| bozo := false; entries := Sample.feed_cba |})
    (Sample.with_cursor "3") =
  (Ok tt,
   {| last_entry_file := Some (lit "3");
      calls := 0;
      trace := [Log INFO NothingNew; Log INFO (Waiting 300); Sleep 300] |}).
Proof.
  apply (quiet_turn Sample.env_down
           {| bozo := false; entries := Sample.feed_cba |}
           (Sample.with_cursor "3")).
  - reflexivity.
  - right. exists (Sample.post "3" "C"),
      [Sample.post "2" "B"; Sample.post "1" "A"],
      (lit "https://example.org/posts/3").
    repeat split; reflexivity.
Defined.

Lemma main_iteration_trace env parsed w :
  exists w' events,
    main_iteration env parsed w = (Ok tt, w') /\
    trace w' = trace w ++ events /\
    (last_event events = Some (Sleep (CHECK_INTERVAL env)) \/
     last_event events = Some (Sleep 60)) /\
    (forall e, parsed = Raised e ->
       last_entry_file w' = last_entry_file w /\
       calls w' = calls w /\
       events = [Log ERROR MainLoopFailed; Log INFO (Restarting 60);
                 Sleep 60]).
Proof.
  destruct parsed as [feed|e].
  - destruct (bozo feed) eqn:Hb.
    + eexists. eexists.
      unfold main_iteration, try_except, bind, feedparser_parse.
      rewrite Hb. run. rewrite <- ?app_assoc.
      split; [reflexivity|]. split; [reflexivity|].
      split; [left; reflexivity|]. intros e He. discriminate He.
    + destruct (for_entries_inv env (cursor w) (entries feed) 0 w)
        as (r & w1 & events & sent_count & Hrun & Htr & _ & Hr & _).
      unfold main_iteration, try_except, bind, feedparser_parse.
      rewrite Hb, process_and_send_entries_eq, Hrun.
      destruct Hr as [-> | ->].
      * run.
        destruct (0 <? sent_count); eexists; eexists;
          cbn [trace]; rewrite Htr, <- ?app_assoc;
          (split; [reflexivity|]); (split; [reflexivity|]);
          (split; [left; apply last_event_app3|]);
          intros e He; discriminate He.
      * eexists. eexists. run. rewrite Htr, <- ?app_assoc.
        split; [reflexivity|]. split; [reflexivity|].
        split; [right; apply last_event_app3|].
        intros e He. discriminate He.
  - eexists. eexists.
    unfold main_iteration, try_except, bind, feedparser_parse.
    run. rewrite <- ?app_assoc.
    split; [reflexivity|]. split; [reflexivity|].
    split; [right; reflexivity|]. intros e' _. repeat split.
Qed.

(** X9.  No turn of the loop lets an exception out and every turn ends
    asleep: the last thing a turn does is sleep [CHECK_INTERVAL]
    seconds, or 60 seconds after an exception.  When the download itself
    raises, the turn only logs the error and the restart and sleeps 60
    seconds: no Bot API call, the cursor file as it was. *)
Theorem every_turn_ends_asleep env parsed w :
  exists w' events,
    main_iteration env parsed w = (Ok tt, w') /\
    trace w' = trace w ++ events /\
    (last_event events = Some (Sleep (CHECK_INTERVAL env)) \/
     last_event events = Some (Sleep 60)) /\
    (forall e, parsed = Raised e ->
       last_entry_file w' = last_entry_file w /\
       calls w' = calls w /\
       events = [Log ERROR MainLoopFailed; Log INFO (Restarting 60);
                 Sleep 60]).
Proof. apply main_iteration_trace. Qed.

(** ** The cursor store, further *)

Lemma lstrip_of_hd (p : char -> bool) (s : str) (c : char) (t : str) :
  lstrip_of p s = c :: t -> p c = false.
Proof.
  induction s as [|d s IH]; cbn [lstrip_of]; [discriminate|].
  destruct (p d) eqn:E; [exact IH|]. now intros [= <- _].
Qed.

Lemma lstrip_of_suffix (p : char -> bool) (s : str) :
  exists pre, s = pre ++ lstrip_of p s.
Proof.
  induction s as [|d s [pre IH]]; [now exists []|].
  cbn [lstrip_of]. destruct (p d).
  - exists (d :: pre). cbn. now rewrite <- IH.
  - now exists [].
Qed.

Lemma lstrip_of_In (p : char -> bool) (s : str) (x : char) :
  In x (lstrip_of p s) -> In x s.
Proof.
  destruct (lstrip_of_suffix p s) as [pre H]. intros Hin.
  rewrite H. apply in_or_app. now right.
Qed.

Lemma strip_In (s : str) (x : char) : In x (strip s) -> In x s.
Proof.
  unfold strip, rstrip_of. intros H.
  apply lstrip_of_In in H. apply in_rev in H.
  apply lstrip_of_In in H. now apply in_rev.
Qed.

Lemma last_app_nonempty (pre l : str) (d : char) :
  l <> [] -> last (pre ++ l) d = last l d.
Proof.
  intros Hl. induction pre as [|c pre IH]; [reflexivity|].
  cbn [app]. destruct (pre ++ l) as [|e m] eqn:E.
  - apply app_eq_nil in E. now destruct E as [_ ->].
  - exact IH.
Qed.

(** What [strip] returns has no whitespace at either end. *)
Lemma strip_ends (s : str) :
  strip s <> [] ->
  isspace (hd 0%N (strip s)) = false /\
  isspace (last (strip s) 0%N) = false.
Proof.
  intros Hne. split.
  - unfold strip in *. destruct (lstrip_of isspace _) as [|c t] eqn:E;
      [congruence|].
    cbn [hd]. now apply lstrip_of_hd in E.
  - unfold strip in *.
    destruct (lstrip_of_suffix isspace (rstrip_of isspace s)) as [pre H].
    rewrite <- (last_app_nonempty pre _ 0%N Hne), <- H.
    unfold rstrip_of. rewrite <- hd_rev_last, rev_involutive.
    destruct (lstrip_of isspace (rev s)) as [|c t] eqn:E.
    + unfold rstrip_of in Hne. rewrite E in Hne. cbn in Hne. congruence.
    + cbn [hd]. now apply lstrip_of_hd in E.
Qed.

Lemma universal_newlines_In (s : str) (x : char) :
  In x (universal_newlines s) -> x <> 13%N /\ (x = 10%N \/ In x s).
Proof.
  remember (length s) as n eqn:Hn. revert s Hn.
  induction n as [n IH] using lt_wf_ind. intros s Hn.
  destruct s as [|c s]; [intros []|].
  cbn [universal_newlines].
  destruct (N.eqb_spec c 13) as [->|Hc].
  - destruct s as [|d s].
    + intros [<-|[]]. split; [discriminate|now left].
    + destruct (N.eqb_spec d 10) as [->|Hd].
      * intros [<-|H]; [split; [discriminate|now left]|].
        apply (IH (length s)) in H; [|simpl in Hn; lia|reflexivity].
        destruct H as [H1 [H2|H2]]; split; auto.
        right. right. now right.
      * intros [<-|H]; [split; [discriminate|now left]|].
        apply (IH (length (d :: s))) in H; [|simpl in *; lia|reflexivity].
        destruct H as [H1 [H2|H2]]; split; auto.
        right. now right.
  - intros [<-|H]; [split; [exact Hc|right; now left]|].
    apply (IH (length s)) in H; [|simpl in Hn; lia|reflexivity].
    destruct H as [H1 [H2|H2]]; split; auto.
    right. now right.
Qed.

Lemma read_cursor_is_clean (raw c : str) :
  (if nonempty (strip (universal_newlines raw))
   then Some (strip (universal_newlines raw)) else None) = Some c ->
  c <> [] /\
  isspace (hd 0%N c) = false /\
  isspace (last c 0%N) = false /\
  ~ In 13%N c /\
  forall x, In x c -> x = 10%N \/ In x raw.
Proof.
  destruct (nonempty (strip (universal_newlines raw))) eqn:E; [|discriminate].
  intros [= <-].
  assert (Hne : strip (universal_newlines raw) <> [])
    by (intros H; rewrite H in E; discriminate).
  destruct (strip_ends _ Hne) as [Hh Hl].
  repeat split; auto.
  - intros Hin. apply strip_In, universal_newlines_In in Hin. tauto.
  - intros x Hx. apply strip_In, universal_newlines_In in Hx. tauto.
Qed.

(** X11.  Writing back the cursor that was read changes nothing for the
    next read: for a cursor file that holds encodable text, saving the
    identifier that [get_last_entry_id] returned and reading again
    returns that identifier. *)
Theorem saving_the_cursor_back_keeps_it w raw c :
  last_entry_file w = Some raw ->
  utf8_encodable raw = true ->
  fst (get_last_entry_id w) = Ok (Some c) ->
  fst (get_last_entry_id (snd (save_last_entry_id c w))) = Ok (Some c).
Proof.
  intros Hfile Henc Hget.
  rewrite get_last_entry_id_run, Hfile in Hget. cbn [fst] in Hget.
  injection Hget as Hget.
  destruct (read_cursor_is_clean raw c Hget) as (Hne & Hh & Hl & Hcr & Hin).
  assert (Hc : utf8_encodable c = true).
  { unfold utf8_encodable in *. rewrite forallb_forall in *.
    intros x Hx. destruct (Hin x Hx) as [->|Hraw];
      [reflexivity|now apply Henc]. }
  rewrite save_last_entry_id_run, get_last_entry_id_run.
  cbn [fst snd last_entry_file]. unfold stored. rewrite Hc.
  rewrite universal_newlines_plain by exact Hcr.
  rewrite strip_clean by assumption.
  now destruct c.
Qed.

Lemma saving_the_cursor_back_witness :
  fst (get_last_entry_id
         (snd (save_last_entry_id (lit "4 2")
                 {| last_entry_file := Some ([32; 13; 10]%N ++ lit "4 2 ");
                    calls := 0; trace := [] |}))) = Ok (Some (lit "4 2")).
Proof.
  apply (saving_the_cursor_back_keeps_it
           {| last_entry_file := Some ([32; 13; 10]%N ++ lit "4 2 ");
              calls := 0; trace := [] |}
           ([32; 13; 10]%N ++ lit "4 2 ") (lit "4 2")); reflexivity.
Defined.

(** X12.  An identifier that cannot be encoded in UTF-8 is not raised
    but logged, and it erases the cursor: [save_last_entry_id] returns,
    the log gets one error record, and the next read finds no cursor,
    whatever the file held before. *)
Theorem unencodable_id_erases_the_cursor entry_id w :
  utf8_encodable entry_id = false ->
  exists w',
    save_last_entry_id entry_id w = (Ok tt, w') /\
    trace w' = trace w ++ [Log ERROR WriteEncodingFailed] /\
    calls w' = calls w /\
    fst (get_last_entry_id w') = Ok None.
Proof.
  intros H. eexists. split; [apply save_last_entry_id_run|].
  rewrite get_last_entry_id_run. cbn [trace calls last_entry_file fst].
  unfold stored. rewrite H. repeat split.
Qed.

Lemma unencodable_id_witness :
  exists w',
    save_last_entry_id [97; 55296]%N (Sample.with_cursor "42") = (Ok tt, w') /\
    trace w' = trace (Sample.with_cursor "42")
               ++ [Log ERROR WriteEncodingFailed] /\
    calls w' = calls (Sample.with_cursor "42") /\
    fst (get_last_entry_id w') = Ok None.
Proof.
  apply (unencodable_id_erases_the_cursor [97; 55296]%N
           (Sample.with_cursor "42")).
  reflexivity.
Defined.

(** ** Text and images, further *)

Lemma rsplit_space_head_prefix (s : str) :
  exists rest, s = rsplit_space_head s ++ rest.
Proof.
  unfold rsplit_space_head.
  destruct (before_last_space s) as [p|] eqn:E.
  - destruct (before_last_space_Some s p E) as (q & -> & _). now eexists.
  - exists []. now rewrite app_nil_r.
Qed.

(** What [truncate_text] returns is the text, or a prefix of the text of
    at most [max_len] characters followed by the ellipsis. *)
Lemma truncate_text_cases (text : str) (max_len : nat) :
  truncate_text text max_len = text /\ length text <= max_len \/
  exists kept rest,
    truncate_text text max_len = kept ++ ellipsis /\
    text = kept ++ rest /\ length kept <= max_len /\ max_len < length text.
Proof.
  unfold truncate_text. destruct (Nat.leb_spec (length text) max_len) as [H|H].
  - now left.
  - right.
    pose proof (firstn_skipn max_len text) as Hsplit.
    pose proof (firstn_le_length max_len text) as Hlen.
    destruct (nonempty (rsplit_space_head (firstn max_len text))).
    + destruct (rsplit_space_head_prefix (firstn max_len text)) as [q Hq].
      exists (rsplit_space_head (firstn max_len text)),
        (q ++ skipn max_len text).
      split; [reflexivity|]. split; [|split; [|exact H]].
      * now rewrite app_assoc, <- Hq.
      * rewrite Hq, length_app in Hlen. lia.
    + exists (firstn max_len text), (skipn max_len text).
      repeat split; auto.
Qed.

Lemma truncate_text_bounds_aux (text : str) (max_len : nat) :
  length (truncate_text text max_len) <= max_len + 3.
Proof.
  destruct (truncate_text_cases text max_len)
    as [[-> H]|(kept & rest & -> & _ & Hk & _)]; [lia|].
  rewrite length_app. change (length ellipsis) with 3. lia.
Qed.

(** X13.  [truncate_text] never returns more than [max_len + 3]
    characters, nor more than two characters more than it was given;
    and every character of a result that was cut is a character of the
    text or a dot of the ellipsis. *)
Theorem truncate_text_bounds text max_len :
  length (truncate_text text max_len) <= max_len + 3 /\
  length (truncate_text text max_len) <= length text + 2 /\
  (forall c, In c (truncate_text text max_len) -> In c text \/ c = 46%N).
Proof.
  destruct (truncate_text_cases text max_len)
    as [[-> H]|(kept & rest & -> & Htext & Hk & Hlt)].
  - repeat split; try lia. now left.
  - rewrite length_app. change (length ellipsis) with 3.
    repeat split; try lia.
    intros c Hc. apply in_app_or in Hc as [Hc|Hc].
    + left. rewrite Htext. apply in_or_app. now left.
    + right. cbn in Hc. intuition congruence.
Qed.

Lemma is_valid_url_nonempty env url :
  is_valid_url env url = true -> url <> [].
Proof. now destruct url. Qed.

Lemma scan_media_valid env media_content url :
  scan_media env media_content = Some url ->
  is_valid_url env url = true /\
  exists media, In media media_content /\ m_url media = Some url.
Proof.
  induction media_content as [|media rest IH]; cbn [scan_media];
    [discriminate|].
  destruct (m_url media) as [url'|] eqn:Eu.
  - destruct (is_valid_url env url') eqn:Ev.
    + intros [= <-]. split; [exact Ev|]. exists media. split; [now left|exact Eu].
    + intros H. destruct (IH H) as (Hv & m & Hin & Hm).
      split; [exact Hv|]. exists m. split; [now right|exact Hm].
  - intros H. destruct (IH H) as (Hv & m & Hin & Hm).
    split; [exact Hv|]. exists m. split; [now right|exact Hm].
Qed.

Lemma scan_links_valid env links href :
  scan_links env links = Some href ->
  exists link_data,
    In link_data links /\ l_href link_data = Some href /\
    image_link env link_data = true.
Proof.
  induction links as [|link_data rest IH]; [discriminate|].
  rewrite scan_links_cons. destruct (image_link env link_data) eqn:E.
  - intros H. exists link_data. split; [now left|]. now split.
  - intros H. destruct (IH H) as (l & Hin & Hl & Hi).
    exists l. split; [now right|]. now split.
Qed.

Lemma image_link_valid env link_data href :
  image_link env link_data = true -> l_href link_data = Some href ->
  is_valid_url env href = true.
Proof.
  unfold image_link. intros H Hh. rewrite Hh in H.
  apply andb_prop in H as [H _]. now apply andb_prop in H as [_ H].
Qed.

Lemma extract_image_url_valid env entry url :
  extract_image_url env entry = Some url -> is_valid_url env url = true.
Proof.
  unfold extract_image_url.
  destruct (match e_media_content entry with
            | Some media_content => scan_media env media_content
            | None => None
            end) as [u|] eqn:Em.
  - intros [= <-]. destruct (e_media_content entry) as [m|]; [|discriminate].
    now apply (scan_media_valid env m u).
  - destruct (e_links entry) as [links|]; [|discriminate].
    intros H. destruct (scan_links_valid env links url H) as (l & _ & Hh & Hi).
    now apply (image_link_valid env l url).
Qed.

(** X14.  The image that [extract_image_url] returns is never an
    arbitrary string: it is the URL of one of the entry's media
    references or the href of one of its links, [is_valid_url] accepts
    it, and it is not empty; a link it is taken from has a type that
    begins with "image" or a keyword in its lower-cased href. *)
Theorem extracted_image_is_a_valid_candidate env entry url :
  extract_image_url env entry = Some url ->
  is_valid_url env url = true /\
  url <> [] /\
  ((exists media_content media,
      e_media_content entry = Some media_content /\
      In media media_content /\ m_url media = Some url)
   \/
   (exists links link_data,
      e_links entry = Some links /\
      In link_data links /\ l_href link_data = Some url /\
      (startswith (lit "image")
         (match l_type link_data with Some t => t | None => [] end) = true
       \/ existsb (fun keyword => contains keyword (lower url))
            image_keywords = true))).
Proof.
  unfold extract_image_url. intros H.
  assert (Hcase :
    (exists media_content, e_media_content entry = Some media_content /\
                           scan_media env media_content = Some url) \/
    (exists links, e_links entry = Some links /\
                   scan_links env links = Some url)).
  { destruct (e_media_content entry) as [media_content|].
    - destruct (scan_media env media_content) as [u|] eqn:Em.
      + injection H as <-. left. now exists media_content.
      + right. destruct (e_links entry) as [links|]; [|discriminate].
        now exists links.
    - right. destruct (e_links entry) as [links|]; [|discriminate].
      now exists links. }
  destruct Hcase as [(media_content & Hm & Hscan)|(links & Hl & Hscan)].
  - destruct (scan_media_valid env media_content url Hscan)
      as (Hv & media & Hin & Hu).
    split; [exact Hv|]. split; [now apply (is_valid_url_nonempty env)|].
    left. now exists media_content, media.
  - destruct (scan_links_valid env links url Hscan)
      as (link_data & Hin & Hh & Hi).
    pose proof (image_link_valid env link_data url Hi Hh) as Hv.
    split; [exact Hv|]. split; [now apply (is_valid_url_nonempty env)|].
    right. exists links, link_data. repeat split; auto.
    unfold image_link in Hi. rewrite Hh in Hi.
    apply andb_prop in Hi as [_ Hi]. now apply orb_prop in Hi.
Qed.

Lemma extracted_image_witness :
  is_valid_url Sample.env_up (lit "https://example.org/img/4") = true /\
  lit "https://example.org/img/4" <> [] /\
  ((exists media_content media,
      e_media_content Sample.post_two_links = Some media_content /\
      In media media_content /\
      m_url media = Some (lit "https://example.org/img/4"))
   \/
   (exists links link_data,
      e_links Sample.post_two_links = Some links /\
      In link_data links /\
      l_href link_data = Some (lit "https://example.org/img/4") /\
      (startswith (lit "image")
         (match l_type link_data with Some t => t | None => [] end) = true
       \/ existsb (fun keyword =>
                     contains keyword (lower (lit "https://example.org/img/4")))
            image_keywords = true))).
Proof.
  apply (extracted_image_is_a_valid_candidate Sample.env_up
           Sample.post_two_links (lit "https://example.org/img/4")).
  reflexivity.
Defined.

(** X15.  Every Bot API call of a cycle, for any feed and any behaviour
    of the Bot API, goes to [CHANNEL_ID]; and the photo of every
    [send_photo] is a URL that [is_valid_url] accepts and that
    [extract_image_url] found in one of the feed's entries. *)
Theorem calls_of_a_cycle env feed_entries w :
  exists r w' events,
    process_and_send_entries env feed_entries w = (r, w') /\
    trace w' = trace w ++ events /\
    Forall (fun call =>
              chat_of call = CHANNEL_ID env /\
              match call with
              | send_photo _ photo _ =>
                  is_valid_url env photo = true /\
                  exists entry,
                    In entry feed_entries /\
                    extract_image_url env entry = Some photo
              | send_message _ _ => True
              end) (bot_calls events).
Proof.
  rewrite process_and_send_entries_eq.
  destruct (for_entries_inv env (cursor w) feed_entries 0 w)
    as (r & w' & events & sent_count & Hrun & Htr & _ & _ & _ & _ & _ & Hall
        & _).
  exists r, w', events. split; [exact Hrun|]. split; [exact Htr|].
  eapply Forall_impl; [|exact Hall].
  intros call (entry & Hin & ->).
  unfold entry_call, call_of, the_call.
  destruct (extract_image_url env entry) as [[|c url]|] eqn:E;
    cbn [chat_of]; try (split; [reflexivity|exact I]).
  split; [reflexivity|].
  split; [now apply (extract_image_url_valid env entry)|]. now exists entry.
Qed.

Lemma escape_char_no_markup (c : char) :
  forallb (fun x => negb (markup_char x)) (escape_char c) = true.
Proof.
  unfold escape_char.
  destruct (N.eqb_spec c 38); [reflexivity|].
  destruct (N.eqb_spec c 60); [reflexivity|].
  destruct (N.eqb_spec c 62); [reflexivity|].
  destruct (N.eqb_spec c 34); [reflexivity|].
  destruct (N.eqb_spec c 39); [reflexivity|].
  cbn. unfold markup_char.
  rewrite (proj2 (N.eqb_neq c 60)), (proj2 (N.eqb_neq c 62)),
    (proj2 (N.eqb_neq c 34)), (proj2 (N.eqb_neq c 39)) by assumption.
  reflexivity.
Qed.

Lemma html_escape_no_markup (s : str) :
  forallb (fun x => negb (markup_char x)) (html_escape s) = true.
Proof.
  induction s as [|c s IH]; [reflexivity|].
  unfold html_escape in *. cbn [flat_map].
  now rewrite forallb_app, escape_char_no_markup, IH.
Qed.

(** X17.  What the feed supplies as title and summary cannot bring
    markup into the message: between the literal bold tags the title
    holds none of the characters <, >, double quote and single quote,
    and neither does the summary part, cut or not.  The link alone is
    copied as the feed gives it. *)
Theorem message_text_is_escaped title link summary :
  exists t s,
    message_of title link summary =
      lit "<b>" ++ t ++ lit "</b>" ++ [10; 10]%N
      ++ s ++ [10; 10]%N ++ read_more ++ link /\
    forallb (fun x => negb (markup_char x)) t = true /\
    forallb (fun x => negb (markup_char x)) s = true /\
    length s <= 3503.
Proof.
  exists (html_escape title),
    (truncate_text
       (html_escape (match summary with Some x => x | None => [] end)) 3500).
  split; [reflexivity|]. split; [apply html_escape_no_markup|].
  split.
  - rewrite forallb_forall. intros c Hc.
    destruct (truncate_text_cases
                (html_escape (match summary with Some x => x | None => [] end))
                3500)
      as [[Heq _]|(kept & rest & Heq & Htext & _)]; rewrite Heq in Hc.
    + pose proof (html_escape_no_markup
                    (match summary with Some x => x | None => [] end)) as H.
      rewrite forallb_forall in H. now apply H.
    + apply in_app_or in Hc as [Hc|Hc].
      * pose proof (html_escape_no_markup
                      (match summary with Some x => x | None => [] end)) as H.
        rewrite forallb_forall in H. apply H. rewrite Htext.
        apply in_or_app. now left.
      * cbn in Hc. destruct Hc as [<-|[<-|[<-|[]]]]; reflexivity.
  - pose proof (truncate_text_bounds_aux
                  (html_escape (match summary with Some x => x | None => [] end))
                  3500) as H.
    exact H.
Qed.

(** ** URLs *)

Lemma find_char_Some (c : char) (s : str) (i : nat) :
  find_char c s = Some i ->
  s = firstn i s ++ c :: skipn (S i) s /\ ~ In c (firstn i s).
Proof.
  revert i. induction s as [|d s IH]; intros i; cbn [find_char];
    [discriminate|].
  destruct (N.eqb_spec d c) as [->|Hd].
  - intros [= <-]. cbn. split; [reflexivity|tauto].
  - destruct (find_char c s) as [j|]; [|discriminate].
    intros [= <-]. destruct (IH j eq_refl) as [Hs Hin].
    cbn [firstn skipn app]. split.
    + f_equal. exact Hs.
    + intros [H|H]; [congruence|tauto].
Qed.

Lemma find_char_app (c : char) (a b : str) :
  ~ In c a -> find_char c (a ++ c :: b) = Some (length a).
Proof.
  induction a as [|d a IH]; intros Hin; cbn [app find_char length].
  - now rewrite N.eqb_refl.
  - destruct (N.eqb_spec d c) as [->|_]; [exfalso; apply Hin; now left|].
    rewrite IH; [reflexivity|]. intros H. apply Hin. now right.
Qed.

Lemma take_until_split (p : char -> bool) (s : str) :
  exists rest,
    s = Urllib.take_until p s ++ rest /\
    forallb (fun c => negb (p c)) (Urllib.take_until p s) = true /\
    (rest = [] \/ p (hd 0%N rest) = true).
Proof.
  induction s as [|c s (rest & Hs & Hall & Hrest)].
  - exists []. repeat split. now left.
  - cbn [Urllib.take_until]. destruct (p c) eqn:E.
    + exists (c :: s). repeat split. now right.
    + exists rest. cbn [app forallb]. rewrite E, Hall. rewrite <- Hs.
      repeat split. exact Hrest.
Qed.

Lemma take_until_app (p : char -> bool) (a rest : str) :
  forallb (fun c => negb (p c)) a = true ->
  rest = [] \/ p (hd 0%N rest) = true ->
  Urllib.take_until p (a ++ rest) = a.
Proof.
  intros Ha Hrest. induction a as [|c a IH].
  - cbn [app]. destruct Hrest as [->|H]; [reflexivity|].
    destruct rest as [|d rest]; [reflexivity|].
    cbn [hd] in H. cbn [Urllib.take_until]. now rewrite H.
  - cbn [forallb] in Ha. apply andb_prop in Ha as [Hc Ha].
    cbn [app Urllib.take_until].
    destruct (p c); [discriminate|]. now rewrite IH.
Qed.

Lemma startswith_slashes (u : str) :
  startswith (lit "//") u = true -> exists u', u = 47%N :: 47%N :: u'.
Proof.
  change (lit "//") with [47%N; 47%N].
  destruct u as [|a [|b u']]; cbn [startswith]; try discriminate.
  - now rewrite andb_false_r.
  - destruct (N.eqb_spec 47 a) as [<-|]; [|discriminate].
    destruct (N.eqb_spec 47 b) as [<-|]; [|discriminate].
    intros _. now exists u'.
Qed.

(** X18.  A URL that [is_valid_url] accepts has, once [urlsplit] has
    stripped it, the form scheme "://" host rest: a scheme that is not
    empty, begins with an ASCII letter and is made of letters, digits,
    "+", "-" and "."; a host part that is not empty and runs up to the
    first "/", "?" or "#" or to the end.  So relative paths, bare host
    names and scheme-only strings are never accepted. *)
Theorem valid_url_has_scheme_and_host env url :
  is_valid_url env url = true ->
  exists scheme netloc rest,
    cleaned_url url = scheme ++ lit "://" ++ netloc ++ rest /\
    scheme <> [] /\
    isascii_alpha (hd 0%N scheme) = true /\
    forallb Urllib.scheme_char scheme = true /\
    netloc <> [] /\
    forallb (fun c => negb (Urllib.netloc_delim c)) netloc = true /\
    (rest = [] \/ Urllib.netloc_delim (hd 0%N rest) = true).
Proof.
  unfold is_valid_url. destruct (nonempty url); [|discriminate].
  cbn [negb]. unfold Urllib.urlsplit.
  change (filter (fun c => negb (Urllib.unsafe_byte c))
            (lstrip_of Urllib.c0_control_or_space url))
    with (cleaned_url url).
  generalize (cleaned_url url) as u. intros u.
  destruct (Urllib.split_scheme u) as [sch u2] eqn:Es.
  intros H.
  assert (Hparts : nonempty sch = true /\
                   exists u3, u2 = 47%N :: 47%N :: u3 /\
                              nonempty (Urllib.take_until Urllib.netloc_delim
                                          u3) = true).
  { destruct (startswith (lit "//") u2) eqn:Esl.
    - destruct (startswith_slashes u2 Esl) as [u3 ->].
      cbn [skipn] in H.
      destruct (xorb _ _); [discriminate|].
      destruct (_ && negb (check_bracketed_netloc env _)); [discriminate|].
      destruct (_ && negb (checknetloc env _)); [discriminate|].
      apply andb_prop in H as [Hs Hn]. split; [exact Hs|].
      now exists u3.
    - apply andb_prop in H as [_ Hn]. discriminate Hn. }
  destruct Hparts as (Hsch & u3 & -> & Hnet).
  unfold Urllib.split_scheme in Es.
  destruct (find_char 58%N u) as [i|] eqn:Ef;
    [|destruct u; injection Es as <- _; discriminate].
  destruct u as [|c0 u'] eqn:Eu; [discriminate|].
  destruct ((0 <? i) && isascii_alpha c0
            && forallb Urllib.scheme_char (firstn i (c0 :: u'))) eqn:Ec;
    [|injection Es as <- _; discriminate].
  injection Es as _ Hu2.
  apply andb_prop in Ec as [Ec Hall]. apply andb_prop in Ec as [Hi Halpha].
  apply Nat.ltb_lt in Hi.
  destruct (find_char_Some 58%N (c0 :: u') i Ef) as [Hsplit _].
  destruct (take_until_split Urllib.netloc_delim u3)
    as (rest & Hu3 & Hnd & Hrest).
  exists (firstn i (c0 :: u')),
    (Urllib.take_until Urllib.netloc_delim u3), rest.
  split; [|split; [|split; [|split; [|split; [|split]]]]].
  - rewrite Hsplit at 1. cbn [skipn] in Hu2 |- *. rewrite Hu2.
    change (lit "://") with [58%N; 47%N; 47%N]. cbn [app].
    now rewrite <- Hu3.
  - destruct i; [lia|discriminate].
  - destruct i; [lia|exact Halpha].
  - exact Hall.
  - intros Hn. rewrite Hn in Hnet. discriminate.
  - exact Hnd.
  - exact Hrest.
Qed.

Lemma valid_url_witness :
  exists scheme netloc rest,
    cleaned_url ([32; 9]%N ++ lit "HTTPS://example.org/a b") =
      scheme ++ lit "://" ++ netloc ++ rest /\
    scheme <> [] /\
    isascii_alpha (hd 0%N scheme) = true /\
    forallb Urllib.scheme_char scheme = true /\
    netloc <> [] /\
    forallb (fun c => negb (Urllib.netloc_delim c)) netloc = true /\
    (rest = [] \/ Urllib.netloc_delim (hd 0%N rest) = true).
Proof.
  apply (valid_url_has_scheme_and_host Sample.env_up
           ([32; 9]%N ++ lit "HTTPS://example.org/a b")).
  reflexivity.
Defined.

Lemma filter_keeps_all {A} (p : A -> bool) (l : list A) :
  forallb p l = true -> filter p l = l.
Proof.
  induction l as [|x l IH]; [reflexivity|].
  cbn [forallb filter]. intros H. apply andb_prop in H as [-> H].
  now rewrite IH.
Qed.

Lemma firstn_length_app {A} (a b : list A) : firstn (length a) (a ++ b) = a.
Proof. induction a as [|x a IH]; [reflexivity|]. cbn. now rewrite IH. Qed.

Lemma skipn_length_app {A} (a b : list A) (c : A) :
  skipn (S (length a)) (a ++ c :: b) = b.
Proof. induction a as [|x a IH]; [reflexivity|]. exact IH. Qed.

Lemma scheme_char_facts (c : char) :
  Urllib.scheme_char c = true ->
  Urllib.unsafe_byte c = false /\ c <> 58%N.
Proof.
  unfold Urllib.scheme_char, Urllib.unsafe_byte, isascii_alpha,
    isascii_upper, isascii_lower, isascii_digit.
  intros H.
  repeat match goal with
         | |- context [(?a =? ?b)%N] => destruct (N.eqb_spec a b)
         | H : context [(?a =? ?b)%N] |- _ => destruct (N.eqb_spec a b)
         | H : context [(?a <=? ?b)%N] |- _ => destruct (N.leb_spec a b)
         end; cbn in *; try discriminate; split; try reflexivity; lia.
Qed.

Lemma alpha_not_stripped (c : char) :
  isascii_alpha c = true -> Urllib.c0_control_or_space c = false.
Proof.
  unfold isascii_alpha, isascii_upper, isascii_lower,
    Urllib.c0_control_or_space.
  intros H. destruct (N.leb_spec c 32); [|reflexivity].
  repeat match goal with
         | H : context [(?a <=? ?b)%N] |- _ => destruct (N.leb_spec a b)
         end; cbn in *; try discriminate; lia.
Qed.

Lemma host_char_facts (c : char) :
  host_char c = true ->
  Urllib.unsafe_byte c = false /\ Urllib.netloc_delim c = false /\
  isascii c = true /\ (91 =? c)%N = false /\ (93 =? c)%N = false.
Proof.
  unfold host_char, Urllib.unsafe_byte, isascii. intros H.
  apply andb_prop in H as [H Hbr]. apply andb_prop in H as [H Hd].
  apply andb_prop in H as [Hlo Hhi].
  apply N.ltb_lt in Hlo. apply negb_true_iff in Hd, Hbr.
  apply orb_false_elim in Hbr as [H91 H93].
  rewrite N.eqb_sym in H91. rewrite N.eqb_sym in H93.
  repeat split; auto.
  repeat match goal with
         | |- context [(?a =? ?b)%N] => destruct (N.eqb_spec a b)
         end; cbn; try reflexivity; lia.
Qed.

Lemma lower_nonempty (s : str) : s <> [] -> nonempty (lower s) = true.
Proof.
  destruct s as [|c s]; [congruence|]. intros _.
  unfold lower. cbn [flat_map]. unfold lower_char.
  destruct (isascii_upper c); [reflexivity|].
  destruct (c =? 304)%N; [reflexivity|].
  now destruct (c =? 8490)%N.
Qed.

(** X19.  An ordinary absolute URL is always accepted, whatever the
    library's checks of bracketed and non-ASCII hosts would say: a
    scheme that begins with an ASCII letter and is made of letters,
    digits, "+", "-" and ".", then "://", then a host that is not empty
    and made of printable ASCII other than "/", "?", "#", "[" and "]",
    then nothing or a path, query or fragment. *)
Theorem plain_urls_are_valid env scheme host rest :
  scheme <> [] ->
  isascii_alpha (hd 0%N scheme) = true ->
  forallb Urllib.scheme_char scheme = true ->
  host <> [] ->
  forallb host_char host = true ->
  (rest = [] \/ Urllib.netloc_delim (hd 0%N rest) = true) ->
  is_valid_url env (scheme ++ lit "://" ++ host ++ rest) = true.
Proof.
  intros Hs Ha Hsc Hh Hhc Hrest.
  change (lit "://") with [58%N; 47%N; 47%N]. cbn [app].
  assert (Hsafe : forallb (fun c => negb (Urllib.unsafe_byte c)) scheme
                  = true).
  { rewrite forallb_forall in *. intros c Hc.
    destruct (scheme_char_facts c (Hsc c Hc)) as [-> _]. reflexivity. }
  assert (Hcolon : ~ In 58%N scheme).
  { rewrite forallb_forall in Hsc. intros Hin.
    destruct (scheme_char_facts 58%N (Hsc _ Hin)) as [_ H]. congruence. }
  assert (Hhost : forallb (fun c => negb (Urllib.unsafe_byte c)) host = true
                  /\ forallb (fun c => negb (Urllib.netloc_delim c)) host
                     = true
                  /\ forallb isascii host = true
                  /\ Urllib.has 91%N host = false
                  /\ Urllib.has 93%N host = false).
  { clear Hh. induction host as [|c host IH]; [repeat split|].
    cbn [forallb] in Hhc. apply andb_prop in Hhc as [Hc Hhc].
    destruct (host_char_facts c Hc) as (H1 & H2 & H3 & H4 & H5).
    destruct (IH Hhc) as (I1 & I2 & I3 & I4 & I5).
    unfold Urllib.has in *. cbn [forallb existsb].
    rewrite H1, H2, H3, H4, H5, I1, I2, I3, I4, I5. repeat split. }
  destruct Hhost as (Hhsafe & Hhnd & Hhascii & Hh91 & Hh93).
  assert (Hrest' : exists rest',
            filter (fun c => negb (Urllib.unsafe_byte c)) rest = rest' /\
            (rest' = [] \/ Urllib.netloc_delim (hd 0%N rest') = true)).
  { eexists. split; [reflexivity|].
    destruct Hrest as [->|Hd]; [now left|].
    destruct rest as [|d rest]; [now left|]. cbn [hd] in Hd. right.
    cbn [filter].
    assert (Hu : Urllib.unsafe_byte d = false).
    { unfold Urllib.netloc_delim, Urllib.unsafe_byte in *.
      repeat match goal with
             | H : context [(?a =? ?b)%N] |- _ => destruct (N.eqb_spec a b)
             end; cbn in *; try discriminate; subst; reflexivity. }
    rewrite Hu. exact Hd. }
  destruct Hrest' as (rest' & Hfilter & Hrest').
  unfold is_valid_url.
  assert (Hurl : nonempty (scheme ++ 58%N :: 47%N :: 47%N :: host ++ rest)
                 = true) by (destruct scheme; [congruence|reflexivity]).
  unfold char, str in *. rewrite Hurl. cbn [negb]. unfold Urllib.urlsplit.
  assert (Hclean :
    filter (fun c => negb (Urllib.unsafe_byte c))
      (lstrip_of Urllib.c0_control_or_space
         (scheme ++ 58%N :: 47%N :: 47%N :: host ++ rest)) =
    scheme ++ 58%N :: 47%N :: 47%N :: host ++ rest').
  { rewrite lstrip_of_head.
    - rewrite filter_app. cbn [filter Urllib.unsafe_byte N.eqb Pos.eqb orb negb].
      unfold char, str in *. rewrite filter_app, Hfilter.
      now rewrite (filter_keeps_all _ scheme Hsafe),
        (filter_keeps_all _ host Hhsafe).
    - destruct scheme as [|c0 sc]; [congruence|].
      cbn [app hd] in *. now apply alpha_not_stripped. }
  unfold char, str in *. rewrite Hclean.
  assert (Hsplit :
    Urllib.split_scheme (scheme ++ 58%N :: 47%N :: 47%N :: host ++ rest') =
    (lower scheme, 47%N :: 47%N :: host ++ rest')).
  { unfold Urllib.split_scheme.
    rewrite (find_char_app 58%N scheme _ Hcolon).
    rewrite !firstn_length_app, skipn_length_app.
    unfold char, str in *. rewrite Hsc.
    destruct scheme as [|c0 sc]; [congruence|].
    cbn [app length hd] in *. rewrite Ha. reflexivity. }
  unfold char, str in *. rewrite Hsplit.
  change (startswith (lit "//") (47%N :: 47%N :: host ++ rest')) with true.
  cbn [skipn].
  pose proof (take_until_app Urllib.netloc_delim host rest' Hhnd Hrest')
    as Htake.
  unfold char, str in *. rewrite Htake.
  rewrite Hh91, Hh93, Hhascii. cbn [xorb andb negb].
  rewrite andb_false_r. cbn [andb].
  rewrite lower_nonempty by exact Hs.
  destruct host; [congruence|reflexivity].
Qed.

Lemma plain_urls_witness :
  is_valid_url Sample.env_up
    (lit "https" ++ lit "://" ++ lit "cdn.example.org:8080"
     ++ lit "/a b.png?x=1") = true.
Proof.
  apply (plain_urls_are_valid Sample.env_up (lit "https")
           (lit "cdn.example.org:8080") (lit "/a b.png?x=1"));
    try reflexivity; try discriminate.
  right. reflexivity.
Defined.

(** ** The validity test, in full *)

Lemma cleaned_url_nonempty (url : str) :
  cleaned_url url <> [] -> nonempty url = true.
Proof. destruct url; [intros H; now contradiction H|reflexivity]. Qed.

Lemma urlsplit_cleaned env url :
  Urllib.urlsplit env url =
  match Urllib.split_scheme (cleaned_url url) with
  | (scheme, u) =>
      if startswith (lit "//") u then
        if netloc_accepted env
             (Urllib.take_until Urllib.netloc_delim (skipn 2 u))
        then Some (scheme,
                   Urllib.take_until Urllib.netloc_delim (skipn 2 u))
        else None
      else Some (scheme, [])
  end.
Proof.
  unfold Urllib.urlsplit, cleaned_url, netloc_accepted.
  destruct (Urllib.split_scheme _) as [scheme u].
  destruct (startswith (lit "//") u); [|reflexivity].
  cbv zeta.
  destruct (xorb _ _); [reflexivity|].
  destruct (_ && negb (check_bracketed_netloc env _)); [reflexivity|].
  destruct (_ && negb (checknetloc env _)); reflexivity.
Qed.

Lemma split_scheme_Some (u sch u2 : str) :
  Urllib.split_scheme u = (sch, u2) ->
  sch <> [] ->
  exists scheme,
    u = scheme ++ 58%N :: u2 /\
    scheme <> [] /\
    isascii_alpha (hd 0%N scheme) = true /\
    forallb Urllib.scheme_char scheme = true /\
    sch = lower scheme.
Proof.
  unfold Urllib.split_scheme. intros Es Hsch.
  destruct (find_char 58%N u) as [i|] eqn:Ef;
    [|destruct u; injection Es as <- _; congruence].
  destruct u as [|c0 u'] eqn:Eu; [discriminate|].
  destruct ((0 <? i) && isascii_alpha c0
            && forallb Urllib.scheme_char (firstn i (c0 :: u'))) eqn:Ec;
    [|injection Es as <- _; congruence].
  injection Es as Hlow Hu2.
  apply andb_prop in Ec as [Ec Hall]. apply andb_prop in Ec as [Hi Halpha].
  apply Nat.ltb_lt in Hi.
  destruct (find_char_Some 58%N (c0 :: u') i Ef) as [Hsplit _].
  exists (firstn i (c0 :: u')).
  split; [|split; [|split; [|split]]].
  - rewrite Hsplit at 1. cbn [skipn] in Hu2 |- *. now rewrite Hu2.
  - destruct i; [lia|discriminate].
  - destruct i; [lia|exact Halpha].
  - exact Hall.
  - now symmetry.
Qed.

Lemma split_scheme_app (scheme u2 : str) :
  scheme <> [] ->
  isascii_alpha (hd 0%N scheme) = true ->
  forallb Urllib.scheme_char scheme = true ->
  Urllib.split_scheme (scheme ++ 58%N :: u2) = (lower scheme, u2).
Proof.
  intros Hs Ha Hsc.
  assert (Hcolon : ~ In 58%N scheme).
  { rewrite forallb_forall in Hsc. intros Hin.
    destruct (scheme_char_facts 58%N (Hsc _ Hin)) as [_ H]. congruence. }
  unfold Urllib.split_scheme.
  rewrite (find_char_app 58%N scheme _ Hcolon).
  rewrite !firstn_length_app, skipn_length_app.
  unfold char, str in *. rewrite Hsc.
  destruct scheme as [|c0 sc]; [exfalso; now apply Hs|].
  cbn [app length hd] in *. rewrite Ha. reflexivity.
Qed.

(** What [is_valid_url] accepts, in full: the URLs that, once stripped,
    read scheme "://" netloc rest, with a scheme as [urlsplit] knows
    them, a network location that is not empty and that the library
    lets pass, and nothing or a path, a query or a fragment after it. *)
Lemma is_valid_url_shape env url :
  is_valid_url env url = true <->
  exists scheme netloc rest,
    cleaned_url url = scheme ++ lit "://" ++ netloc ++ rest /\
    scheme <> [] /\
    isascii_alpha (hd 0%N scheme) = true /\
    forallb Urllib.scheme_char scheme = true /\
    netloc <> [] /\
    forallb (fun c => negb (Urllib.netloc_delim c)) netloc = true /\
    (rest = [] \/ Urllib.netloc_delim (hd 0%N rest) = true) /\
    netloc_accepted env netloc = true.
Proof.
  split.
  - unfold is_valid_url. destruct (nonempty url); [|discriminate].
    cbn [negb]. rewrite urlsplit_cleaned.
    destruct (Urllib.split_scheme (cleaned_url url)) as [sch u2] eqn:Es.
    destruct (startswith (lit "//") u2) eqn:Esl;
      [|intros H; apply andb_prop in H as [_ H]; discriminate H].
    destruct (startswith_slashes u2 Esl) as [u3 ->]. cbn [skipn].
    destruct (netloc_accepted env _) eqn:Eacc; [|discriminate].
    intros H. apply andb_prop in H as [Hs Hn].
    assert (Hsch : sch <> []) by (intros ->; discriminate).
    destruct (split_scheme_Some _ _ _ Es Hsch)
      as (scheme & Hu & Hne & Halpha & Hall & _).
    destruct (take_until_split Urllib.netloc_delim u3)
      as (rest & Hu3 & Hnd & Hrest).
    exists scheme, (Urllib.take_until Urllib.netloc_delim u3), rest.
    split; [|split; [|split; [|split; [|split; [|split; [|split]]]]]];
      auto.
    + rewrite Hu. change (lit "://") with [58%N; 47%N; 47%N]. cbn [app].
      now rewrite <- Hu3.
    + intros Hn'. rewrite Hn' in Hn. discriminate.
  - intros (scheme & netloc & rest & Hclean & Hs & Ha & Hsc & Hn & Hnd
            & Hrest & Hacc).
    unfold is_valid_url.
    rewrite cleaned_url_nonempty
      by (rewrite Hclean; destruct scheme; [congruence|discriminate]).
    cbn [negb]. rewrite urlsplit_cleaned, Hclean.
    change (lit "://") with [58%N; 47%N; 47%N]. cbn [app].
    rewrite split_scheme_app by assumption.
    change (lit "//") with [47%N; 47%N]. cbn [startswith].
    rewrite !N.eqb_refl. cbn [andb skipn].
    pose proof (take_until_app Urllib.netloc_delim netloc rest Hnd Hrest)
      as Htake.
    unfold char, str in *. rewrite Htake, Hacc.
    rewrite lower_nonempty by exact Hs.
    destruct netloc; [congruence|reflexivity].
Qed.

(** The specification's test is the stricter one: a URL with a host has
    a network location. *)
Lemma claimed_valid_is_valid env url :
  ClaimedUrl.is_valid_url env url = true -> is_valid_url env url = true.
Proof.
  unfold ClaimedUrl.is_valid_url, is_valid_url.
  destruct url as [|c url]; [intros H; cbn in H; discriminate H|].
  cbn [nonempty negb].
  destruct (Urllib.urlsplit env (c :: url)) as [[scheme netloc]|];
    [|discriminate].
  intros H. apply andb_prop in H as [-> Hh].
  destruct netloc; [discriminate Hh|reflexivity].
Qed.

(** ** Entries without and with an image *)

(** No image when every candidate fails the test. *)
Lemma no_valid_candidate env entry :
  (forall media_content media url,
     e_media_content entry = Some media_content ->
     In media media_content -> m_url media = Some url ->
     is_valid_url env url = false) ->
  (forall links link_data href,
     e_links entry = Some links ->
     In link_data links -> l_href link_data = Some href ->
     is_valid_url env href = false) ->
  extract_image_url env entry = None.
Proof.
  intros Hmedia Hlinks.
  assert (Hscan : match e_links entry with
                  | Some links => scan_links env links
                  | None => None
                  end = None).
  { destruct (e_links entry) as [links|] eqn:El; [|reflexivity].
    apply scan_links_none. apply Forall_forall. intros link_data Hin.
    unfold image_link.
    destruct (l_href link_data) as [href|] eqn:Eh; [|reflexivity].
    rewrite (Hlinks links link_data href eq_refl Hin Eh).
    now rewrite andb_false_r. }
  unfold extract_image_url.
  destruct (e_media_content entry) as [media_content|] eqn:Em;
    [|exact Hscan].
  rewrite scan_media_none; [exact Hscan|].
  apply Forall_forall. intros media Hin. unfold image_media.
  destruct (m_url media) as [url|] eqn:Eu; [|reflexivity].
  exact (Hmedia media_content media url eq_refl Hin Eu).
Qed.

(** The walk on an unseen entry, whatever follows it in the feed. *)
Lemma for_entries_delivery env last_id entry link title n w :
  e_link entry = Some link ->
  e_title entry = Some title ->
  seen last_id (id_of entry link) = false ->
  exists k (sent : bool) w1,
    (forall rest,
       for_entries env last_id (entry :: rest) n w =
       for_entries env last_id rest (if sent then S n else n) w1) /\
    (forall i, i < k ->
       telegram env (calls w + i) (call_of env entry title link) <> SendOk) /\
    (if sent
     then k < MAX_RETRIES /\
          telegram env (calls w + k) (call_of env entry title link) = SendOk
     else k = MAX_RETRIES) /\
    trace w1 =
      trace w ++ delivery_events env entry title link (calls w) k sent /\
    calls w1 = calls w + k + (if sent then 1 else 0) /\
    last_entry_file w1 =
      (if sent then Some (stored (id_of entry link)) else last_entry_file w).
Proof.
  intros Hl Ht Hs.
  destruct (send_attempts_trace env 0 MAX_RETRIES (id_of entry link)
              (html_escape title) (message_of title link (e_summary entry))
              (extract_image_url env entry) n w)
    as (k & sent & w1 & Hrun & Hk & Hsent & Htr & Hc & Hf).
  fold (call_of env entry title link) in Hk, Hsent, Htr.
  cbn [Nat.add] in Htr.
  exists k, sent.
  destruct sent.
  - eexists. split.
    + intros rest.
      rewrite (for_entries_deliver env last_id entry link title _ _ _
                 Hl Ht Hs), Hrun.
      reflexivity.
    + unfold record, delivery_events. cbn [trace calls last_entry_file].
      repeat split; auto; try tauto.
      rewrite Htr, <- !app_assoc. reflexivity.
  - exists w1. split.
    + intros rest.
      rewrite (for_entries_deliver env last_id entry link title _ _ _
                 Hl Ht Hs), Hrun.
      reflexivity.
    + unfold delivery_events. repeat split; auto.
Qed.

(** C7, as amended.  [is_valid_url] tests the network location that
    [urlparse] returns, not the host inside it.  It holds exactly for
    the URLs that read scheme "://" netloc rest with a non-empty scheme
    and a non-empty network location that the library lets pass; every
    URL with a non-empty scheme and a non-empty host is among them.  An
    entry whose media references and links all carry URLs that fail
    this test has no image: it is walked through without an exception,
    every Bot API call made for it, at least one and at most
    [MAX_RETRIES], is [send_message] with the full message, and none is
    a [send_photo]. *)
Theorem C7_invalid_urls_give_text env :
  (forall url,
     is_valid_url env url = true <->
     exists scheme netloc rest,
       cleaned_url url = scheme ++ lit "://" ++ netloc ++ rest /\
       scheme <> [] /\
       isascii_alpha (hd 0%N scheme) = true /\
       forallb Urllib.scheme_char scheme = true /\
       netloc <> [] /\
       forallb (fun c => negb (Urllib.netloc_delim c)) netloc = true /\
       (rest = [] \/ Urllib.netloc_delim (hd 0%N rest) = true) /\
       netloc_accepted env netloc = true) /\
  (forall url,
     ClaimedUrl.is_valid_url env url = true -> is_valid_url env url = true) /\
  (forall entry,
     (forall media_content media url,
        e_media_content entry = Some media_content ->
        In media media_content -> m_url media = Some url ->
        is_valid_url env url = false) ->
     (forall links link_data href,
        e_links entry = Some links ->
        In link_data links -> l_href link_data = Some href ->
        is_valid_url env href = false) ->
     extract_image_url env entry = None /\
     forall last_id link title n w,
       e_link entry = Some link ->
       e_title entry = Some title ->
       seen last_id (id_of entry link) = false ->
       call_of env entry title link =
         send_message (CHANNEL_ID env)
           (message_of title link (e_summary entry)) /\
       exists k (sent : bool) w',
         for_entries env last_id [entry] n w =
           (Ok (if sent then S n else n), w') /\
         (forall rest,
            for_entries env last_id (entry :: rest) n w =
            for_entries env last_id rest (if sent then S n else n) w') /\
         (forall i, i < k ->
            telegram env (calls w + i)
              (send_message (CHANNEL_ID env)
                 (message_of title link (e_summary entry))) <> SendOk) /\
         (if sent
          then k < MAX_RETRIES /\
               telegram env (calls w + k)
                 (send_message (CHANNEL_ID env)
                    (message_of title link (e_summary entry))) = SendOk
          else k = MAX_RETRIES) /\
         trace w' =
           trace w ++ delivery_events env entry title link (calls w) k sent /\
         bot_calls (delivery_events env entry title link (calls w) k sent) =
           repeat (send_message (CHANNEL_ID env)
                     (message_of title link (e_summary entry)))
             (k + (if sent then 1 else 0)) /\
         1 <= k + (if sent then 1 else 0) <= MAX_RETRIES /\
         calls w' = calls w + k + (if sent then 1 else 0)).
Proof.
  split; [exact (is_valid_url_shape env)|].
  split; [exact (claimed_valid_is_valid env)|].
  intros entry Hmedia Hlinks.
  pose proof (no_valid_candidate env entry Hmedia Hlinks) as Hnone.
  split; [exact Hnone|].
  intros last_id link title n w Hl Ht Hs.
  assert (Hcall : call_of env entry title link =
                  send_message (CHANNEL_ID env)
                    (message_of title link (e_summary entry)))
    by (unfold call_of; now rewrite Hnone).
  split; [exact Hcall|].
  destruct (for_entries_delivery env last_id entry link title n w Hl Ht Hs)
    as (k & sent & w' & Hrun & Hk & Hsent & Htr & Hc & _).
  exists k, sent, w'.
  split; [exact (Hrun [])|]. split; [exact Hrun|].
  rewrite <- Hcall.
  split; [exact Hk|]. split; [exact Hsent|]. split; [exact Htr|].
  split; [apply delivery_events_calls|]. split; [|exact Hc].
  unfold MAX_RETRIES in *. destruct sent; lia.
Qed.

(** C7 as the specification words it fails: a URL with a port and no
    host, or with an empty user part and no host, has a network
    location, so [is_valid_url] accepts it although its host is empty;
    an entry whose only image candidate is such a URL goes out with
    [send_photo]. *)
Lemma C7_hostless_url_is_valid :
  Urllib.urlsplit Sample.env_up (lit "http://:8080/a.png") =
    Some (lit "http", lit ":8080") /\
  ClaimedUrl.host (lit ":8080") = [] /\
  is_valid_url Sample.env_up (lit "http://:8080/a.png") = true /\
  ClaimedUrl.is_valid_url Sample.env_up (lit "http://:8080/a.png") = false /\
  is_valid_url Sample.env_up (lit "http://@/a.png") = true /\
  ClaimedUrl.is_valid_url Sample.env_up (lit "http://@/a.png") = false /\
  extract_image_url Sample.env_up post_hostless =
    Some (lit "http://:8080/a.png") /\
  process_and_send_entries Sample.env_up [post_hostless] Sample.fresh =
    (Ok 1,
     {| last_entry_file := Some (lit "8");
        calls := 1;
        trace :=
          [Call (send_photo (CHANNEL_ID Sample.env_up)
                   (lit "http://:8080/a.png")
                   (message_of (lit "H") (lit "https://example.org/posts/8")
                      None));
           Log INFO (PhotoPosted (lit "H"));
           Log INFO (EntryProcessed (lit "H") (lit "8"));
           Sleep 60] |}).
Proof. repeat split; vm_compute; reflexivity. Qed.

(** C7 at work: a relative path, an empty string, a URL without scheme
    and a URL without network location are the only image candidates;
    the entry goes out as one text message. *)
Lemma C7_invalid_urls_witness :
  is_valid_url Sample.env_up (lit "https://example.org/cover/4") = true /\
  extract_image_url Sample.env_up Sample.post_bad_images = None /\
  (exists k (sent : bool) w',
     for_entries Sample.env_up None [Sample.post_bad_images] 0 Sample.fresh =
       (Ok (if sent then 1 else 0), w') /\
     trace w' =
       trace Sample.fresh
       ++ delivery_events Sample.env_up Sample.post_bad_images (lit "F")
            (lit "https://example.org/posts/6") (calls Sample.fresh) k sent /\
     bot_calls
       (delivery_events Sample.env_up Sample.post_bad_images (lit "F")
          (lit "https://example.org/posts/6") (calls Sample.fresh) k sent) =
       repeat (send_message (CHANNEL_ID Sample.env_up)
                 (message_of (lit "F") (lit "https://example.org/posts/6")
                    (e_summary Sample.post_bad_images)))
         (k + (if sent then 1 else 0))) /\
  process_and_send_entries Sample.env_up [Sample.post_bad_images]
    Sample.fresh =
    (Ok 1,
     {| last_entry_file := Some (lit "6");
        calls := 1;
        trace :=
          [Call (send_message (CHANNEL_ID Sample.env_up)
                   (message_of (lit "F") (lit "https://example.org/posts/6")
                      None));
           Log INFO (TextPosted (lit "F"));
           Log INFO (EntryProcessed (lit "F") (lit "6"));
           Sleep 60] |}).
Proof.
  destruct (C7_invalid_urls_give_text Sample.env_up)
    as (Hvalid & _ & Htext).
  split; [|split; [|split]].
  - apply Hvalid.
    exists (lit "https"), (lit "example.org"), (lit "/cover/4").
    repeat split; try reflexivity; try discriminate. right. reflexivity.
  - apply (Htext Sample.post_bad_images).
    + intros media_content media url [= <-] Hin Hu.
      destruct Hin as [<-|[<-|[]]]; injection Hu as <-; reflexivity.
    + intros links link_data href [= <-] Hin Hh.
      destruct Hin as [<-|[<-|[]]]; injection Hh as <-; reflexivity.
  - assert (Hmedia : forall media_content media url,
              e_media_content Sample.post_bad_images = Some media_content ->
              In media media_content -> m_url media = Some url ->
              is_valid_url Sample.env_up url = false).
    { intros media_content media url [= <-] Hin Hu.
      destruct Hin as [<-|[<-|[]]]; injection Hu as <-; reflexivity. }
    assert (Hlinks : forall links link_data href,
              e_links Sample.post_bad_images = Some links ->
              In link_data links -> l_href link_data = Some href ->
              is_valid_url Sample.env_up href = false).
    { intros links link_data href [= <-] Hin Hh.
      destruct Hin as [<-|[<-|[]]]; injection Hh as <-; reflexivity. }
    destruct (Htext Sample.post_bad_images Hmedia Hlinks) as [_ Hwalk].
    destruct (Hwalk None (lit "https://example.org/posts/6") (lit "F") 0
                Sample.fresh eq_refl eq_refl eq_refl)
      as (_ & k & sent & w' & Hone & _ & _ & _ & Htr & Hcalls & _).
    exists k, sent, w'. repeat split; assumption.
  - vm_compute. reflexivity.
Defined.

(** X16.  An entry for which [extract_image_url] finds an image goes out
    as a photo, for any behaviour of the Bot API: the walk passes it
    without an exception; the Bot API is called [k] times in vain and,
    if the entry is sent, once more, where [k] is the number of refusals
    before the first accepted call or [MAX_RETRIES]; every one of these
    calls, at least one and at most [MAX_RETRIES], is [send_photo] with
    that URL and with the message cut by [truncate_text] at 1024 as its
    caption.  No [send_message] is tried, not even after a refused
    photo. *)
Theorem image_entries_go_out_as_photos
    env last_id entry link title url n w :
  e_link entry = Some link ->
  e_title entry = Some title ->
  seen last_id (id_of entry link) = false ->
  extract_image_url env entry = Some url ->
  call_of env entry title link =
    send_photo (CHANNEL_ID env) url
      (truncate_text (message_of title link (e_summary entry)) 1024) /\
  exists k (sent : bool) w',
    for_entries env last_id [entry] n w =
      (Ok (if sent then S n else n), w') /\
    (forall rest,
       for_entries env last_id (entry :: rest) n w =
       for_entries env last_id rest (if sent then S n else n) w') /\
    (forall i, i < k ->
       telegram env (calls w + i)
         (send_photo (CHANNEL_ID env) url
            (truncate_text (message_of title link (e_summary entry)) 1024))
       <> SendOk) /\
    (if sent
     then k < MAX_RETRIES /\
          telegram env (calls w + k)
            (send_photo (CHANNEL_ID env) url
               (truncate_text (message_of title link (e_summary entry))
                  1024))
          = SendOk
     else k = MAX_RETRIES) /\
    trace w' =
      trace w ++ delivery_events env entry title link (calls w) k sent /\
    bot_calls (delivery_events env entry title link (calls w) k sent) =
      repeat (send_photo (CHANNEL_ID env) url
                (truncate_text (message_of title link (e_summary entry))
                   1024))
        (k + (if sent then 1 else 0)) /\
    1 <= k + (if sent then 1 else 0) <= MAX_RETRIES /\
    calls w' = calls w + k + (if sent then 1 else 0).
Proof.
  intros Hl Ht Hs Himg.
  assert (Hcall : call_of env entry title link =
                  send_photo (CHANNEL_ID env) url
                    (truncate_text (message_of title link (e_summary entry))
                       1024)).
  { unfold call_of, the_call. rewrite Himg.
    pose proof (is_valid_url_nonempty env url
                  (extract_image_url_valid env entry url Himg)) as Hurl.
    destruct url as [|c url]; [congruence|reflexivity]. }
  split; [exact Hcall|].
  destruct (for_entries_delivery env last_id entry link title n w Hl Ht Hs)
    as (k & sent & w' & Hrun & Hk & Hsent & Htr & Hc & _).
  exists k, sent, w'.
  split; [exact (Hrun [])|]. split; [exact Hrun|].
  rewrite <- Hcall.
  split; [exact Hk|]. split; [exact Hsent|]. split; [exact Htr|].
  split; [apply delivery_events_calls|]. split; [|exact Hc].
  unfold MAX_RETRIES in *. destruct sent; lia.
Qed.

(** X16 at work: the Bot API refuses every call; the entry with a media
    reference is tried three times, each time as a photo, and is not
    sent. *)
Lemma image_entries_witness :
  (call_of Sample.env_down Sample.post_media (lit "E")
     (lit "https://example.org/posts/5") =
   send_photo (CHANNEL_ID Sample.env_down)
     (lit "https://cdn.example.org/v/4.mp4")
     (truncate_text
        (message_of (lit "E") (lit "https://example.org/posts/5")
           (e_summary Sample.post_media)) 1024) /\
   exists k (sent : bool) w',
     for_entries Sample.env_down None [Sample.post_media] 0 Sample.fresh =
       (Ok (if sent then 1 else 0), w') /\
     bot_calls
       (delivery_events Sample.env_down Sample.post_media (lit "E")
          (lit "https://example.org/posts/5") (calls Sample.fresh) k sent) =
       repeat (send_photo (CHANNEL_ID Sample.env_down)
                 (lit "https://cdn.example.org/v/4.mp4")
                 (truncate_text
                    (message_of (lit "E") (lit "https://example.org/posts/5")
                       (e_summary Sample.post_media)) 1024))
         (k + (if sent then 1 else 0))) /\
  fst (process_and_send_entries Sample.env_down [Sample.post_media]
         Sample.fresh) = Ok 0 /\
  bot_calls (trace (snd (process_and_send_entries Sample.env_down
                           [Sample.post_media] Sample.fresh))) =
    repeat (send_photo (CHANNEL_ID Sample.env_down)
              (lit "https://cdn.example.org/v/4.mp4")
              (message_of (lit "E") (lit "https://example.org/posts/5") None))
      3 /\
  process_and_send_entries Sample.env_up [Sample.post_media] Sample.fresh =
    (Ok 1,
     {| last_entry_file := Some (lit "5");
        calls := 1;
        trace :=
          [Call (send_photo (CHANNEL_ID Sample.env_up)
                   (lit "https://cdn.example.org/v/4.mp4")
                   (message_of (lit "E") (lit "https://example.org/posts/5")
                      None));
           Log INFO (PhotoPosted (lit "E"));
           Log INFO (EntryProcessed (lit "E") (lit "5"));
           Sleep 60] |}).
Proof.
  split; [|repeat split; vm_compute; reflexivity].
  destruct (image_entries_go_out_as_photos Sample.env_down None
              Sample.post_media (lit "https://example.org/posts/5") (lit "E")
              (lit "https://cdn.example.org/v/4.mp4") 0 Sample.fresh
              eq_refl eq_refl eq_refl eq_refl)
    as (Hcall & k & sent & w' & Hone & _ & _ & _ & _ & Hcalls & _).
  split; [exact Hcall|].
  exists k, sent, w'. split; assumption.
Defined.

(** ** Start-up and the whole program *)



(** ** The cursor read and the start-up, on a file system that may fail *)

Lemma get_last_entry_id_given_reliable (w : World) :
  get_last_entry_id w = get_last_entry_id_given (read_of w) w.
Proof.
  unfold get_last_entry_id, get_last_entry_id_given, read_text,
    read_text_given, read_of, try_except, bind.
  now destruct (last_entry_file w).
Qed.

(** X10.  [get_last_entry_id] never raises, whatever reading the file
    does.  When the file is read it returns the stripped text, or no
    cursor when that is empty, and leaves the world as it is; a missing
    file gives no cursor, silently; any other exception of the read
    gives no cursor and one error record in the log, the cursor file
    and the Bot API untouched.  A cursor it returns is not empty, has no
    whitespace at either end and holds no carriage return.  On the
    reliable file of a cycle it is the read of the file's text. *)
Theorem get_last_entry_id_gives_a_clean_cursor read w :
  get_last_entry_id w = get_last_entry_id_given (read_of w) w /\
  exists last_id,
    get_last_entry_id_given read w =
      (Ok last_id,
       match read with
       | Ok _ => w
       | Raised FileNotFoundError => w
       | Raised _ => record (Log ERROR ReadFailed) w
       end) /\
    last_id =
      match read with
      | Ok raw =>
          if nonempty (strip (universal_newlines raw))
          then Some (strip (universal_newlines raw))
          else None
      | Raised _ => None
      end /\
    (forall c, last_id = Some c ->
       c <> [] /\
       isspace (hd 0%N c) = false /\
       isspace (last c 0%N) = false /\
       ~ In 13%N c).
Proof.
  split; [apply get_last_entry_id_given_reliable|].
  eexists. split; [|split; [reflexivity|]].
  - unfold get_last_entry_id_given, read_text_given, try_except, bind, ret,
      logging.
    destruct read as [raw|[]]; reflexivity.
  - intros c Hc. destruct read as [raw|e]; [|discriminate].
    destruct (read_cursor_is_clean raw c Hc) as (H1 & H2 & H3 & H4 & _).
    repeat split; assumption.
Qed.





(** ** Pacing *)

Lemma beats_app (a b : list Event) : beats (a ++ b) = beats a ++ beats b.
Proof. apply flat_map_app. Qed.

Lemma rhythm_app (a b : list Event) :
  rhythm (a ++ b) = rhythm a ++ rhythm b.
Proof. apply flat_map_app. Qed.

Lemma paced_app env first (a b : list BotCall) :
  paced env first (a ++ b) =
  paced env first a ++ paced env (first + length a) b.
Proof.
  revert first. induction a as [|call a IH]; intros first.
  - cbn [app paced length]. now rewrite Nat.add_0_r.
  - cbn [app paced length]. rewrite IH.
    now rewrite Nat.add_succ_comm.
Qed.

Lemma failure_events_rhythm env call nth_call send_attempt :
  rhythm (failure_events env call nth_call send_attempt) = [None; Some 2].
Proof.
  unfold failure_events. cbn. now destruct (send_attempt =? 2).
Qed.

Lemma success_events_rhythm call title entry_id :
  rhythm (success_events call title entry_id) = [None].
Proof.
  unfold success_events. cbn. now destruct (utf8_encodable entry_id).
Qed.

Lemma failures_rhythm env call first k :
  (forall i, i < k -> telegram env (first + i) call <> SendOk) ->
  rhythm (flat_map (fun i => failure_events env call (first + i) i)
            (seq 0 k)) =
  paced env first (repeat call k).
Proof.
  induction k as [|k IH]; intros Hk; [reflexivity|].
  rewrite seq_S, flat_map_app, rhythm_app. cbn [Nat.add flat_map].
  rewrite app_nil_r, failure_events_rhythm.
  rewrite IH by (intros i Hi; apply Hk; lia).
  replace (repeat call (S k)) with (repeat call k ++ [call])
    by (symmetry; apply (repeat_cons k call)).
  rewrite paced_app, repeat_length. cbn [paced]. unfold accepts.
  pose proof (Hk k (Nat.lt_succ_diag_r k)) as Hrefused.
  destruct (telegram env (first + k) call); [congruence| |]; reflexivity.
Qed.

Lemma delivery_events_rhythm env entry title link first k (sent : bool) :
  (forall i, i < k ->
     telegram env (first + i) (call_of env entry title link) <> SendOk) ->
  (if sent
   then telegram env (first + k) (call_of env entry title link) = SendOk
   else True) ->
  rhythm (delivery_events env entry title link first k sent) =
  paced env first
    (bot_calls (delivery_events env entry title link first k sent)).
Proof.
  intros Hk Hsent. rewrite delivery_events_calls.
  unfold delivery_events. rewrite rhythm_app, failures_rhythm by exact Hk.
  destruct sent.
  - rewrite repeat_app, paced_app, repeat_length.
    rewrite rhythm_app, success_events_rhythm.
    cbn [repeat paced rhythm flat_map app]. unfold accepts.
    now rewrite Hsent.
  - cbn [rhythm flat_map]. now rewrite Nat.add_0_r, app_nil_r.
Qed.

Lemma for_entries_rhythm env last_id entries n w :
  exists r w' events,
    for_entries env last_id entries n w = (r, w') /\
    trace w' = trace w ++ events /\
    calls w' = calls w + length (bot_calls events) /\
    rhythm events = paced env (calls w) (bot_calls events).
Proof.
  revert n w. induction entries as [|entry rest IH]; intros n w.
  - exists (Ok n), w, []. cbn. now rewrite app_nil_r, Nat.add_0_r.
  - assert (Hstop : forall r,
      for_entries env last_id (entry :: rest) n w = (r, w) ->
      exists r w' events,
        for_entries env last_id (entry :: rest) n w = (r, w') /\
        trace w' = trace w ++ events /\
        calls w' = calls w + length (bot_calls events) /\
        rhythm events = paced env (calls w) (bot_calls events)).
    { intros r Hrun. exists r, w, []. cbn.
      now rewrite app_nil_r, Nat.add_0_r. }
    destruct (e_link entry) as [link|] eqn:Hl;
      [|apply (Hstop (Raised AttributeError));
        now apply for_entries_no_link].
    destruct (seen last_id (id_of entry link)) eqn:Hs;
      [apply (Hstop (Ok n));
       now apply (for_entries_seen env last_id entry link)|].
    destruct (e_title entry) as [title|] eqn:Ht;
      [|apply (Hstop (Raised AttributeError));
        now apply (for_entries_no_title env last_id entry link)].
    clear Hstop.
    destruct (for_entries_unseen env last_id entry link title rest n w
                Hl Ht Hs)
      as (k & sent & w1 & Hrun & Hk & Hsent & Htr & Hc & _).
    destruct (IH (if sent then S n else n) w1)
      as (r & w' & events & Hrest & Htr' & Hc' & Hrhythm).
    exists r, w',
      (delivery_events env entry title link (calls w) k sent ++ events).
    rewrite Hrun, Hrest, Htr', Htr, <- app_assoc.
    split; [reflexivity|]. split; [reflexivity|].
    rewrite bot_calls_app, length_app, rhythm_app, paced_app.
    assert (Hsent' : if sent
                     then telegram env (calls w + k)
                            (call_of env entry title link) = SendOk
                     else True)
      by (destruct sent; [apply Hsent|exact I]).
    rewrite Hrhythm,
      (delivery_events_rhythm env entry title link (calls w) k sent Hk
         Hsent').
    rewrite delivery_events_calls, repeat_length.
    split; [rewrite Hc', Hc; lia|].
    rewrite Hc, Nat.add_assoc. reflexivity.
Qed.

Lemma beats_of_rhythm (events : list Event) :
  beats events =
  map (fun beat => match beat with None => true | Some _ => false end)
    (rhythm events).
Proof.
  induction events as [|ev events IH]; [reflexivity|].
  change (ev :: events) with ([ev] ++ events).
  rewrite beats_app, rhythm_app, map_app, IH. now destruct ev.
Qed.

Lemma sleeps_of_rhythm (events : list Event) :
  sleeps events =
  flat_map (fun beat => match beat with None => [] | Some n => [n] end)
    (rhythm events).
Proof.
  induction events as [|ev events IH]; [reflexivity|].
  change (ev :: events) with ([ev] ++ events).
  rewrite sleeps_app, rhythm_app, flat_map_app, IH. now destruct ev.
Qed.

Lemma paced_beats env first (calls : list BotCall) :
  map (fun beat => match beat with None => true | Some _ => false end)
    (paced env first calls) = call_then_sleep (length calls).
Proof.
  revert first. induction calls as [|call later IH]; intros first;
    [reflexivity|].
  cbn [paced map length call_then_sleep]. now rewrite IH.
Qed.

Lemma paced_sleeps env first (calls : list BotCall) :
  length (flat_map (fun beat => match beat with
                                | None => []
                                | Some n => [n]
                                end) (paced env first calls)) =
  length calls.
Proof.
  revert first. induction calls as [|call later IH]; intros first;
    [reflexivity|].
  cbn [paced flat_map app length]. now rewrite IH.
Qed.

(** X22.  The pacing of a cycle, for any feed and any behaviour of the
    Bot API: calls and sleeps alternate, starting with a call.  Every
    Bot API call is followed by exactly one sleep before the next call
    is made, of 2 seconds when the call was refused and of
    [POST_COOLDOWN] seconds when it was accepted; the cycle never sleeps
    without having called, and it sleeps as often as it calls. *)
Theorem calls_and_sleeps_alternate env feed_entries w :
  exists r w' events,
    process_and_send_entries env feed_entries w = (r, w') /\
    trace w' = trace w ++ events /\
    rhythm events = paced env (calls w) (bot_calls events) /\
    beats events = call_then_sleep (length (bot_calls events)) /\
    length (sleeps events) = length (bot_calls events).
Proof.
  rewrite process_and_send_entries_eq.
  destruct (for_entries_rhythm env (cursor w) feed_entries 0 w)
    as (r & w' & events & Hrun & Htr & _ & Hrhythm).
  exists r, w', events.
  split; [exact Hrun|]. split; [exact Htr|]. split; [exact Hrhythm|].
  split.
  - rewrite beats_of_rhythm, Hrhythm. apply paced_beats.
  - rewrite sleeps_of_rhythm, Hrhythm. apply paced_sleeps.
Qed.

(** The pacing at work: the Bot API refuses the first three calls of
    the run and accepts the others. *)
Example pacing_of_a_late_start :
  rhythm (trace (snd (process_and_send_entries Sample.env_late
                        [Sample.post "3" "C"; Sample.post "2" "B"]
                        Sample.fresh))) =
  [None; Some 2; None; Some 2; None; Some 2; None; Some 60].
Proof. vm_compute. reflexivity. Qed.
